(** * rigify/rigs/basic/super_copy.py: the "copy" rig

    A shallow embedding of the staged generation pipeline of the
    [basic.super_copy] rig type: bone generation, parenting, property
    configuration, constraint relinking and widget creation.

    The stage methods of [Rig] are translated from the Python source.  The
    armature, the bone and constraint stores, the relink mixin and the widget
    catalog are collaborators whose code lives in other files; they are
    modelled from their documented contract and every such definition says
    so. *)

From stdpp Require Import gmap strings list fin_maps stringmap.

(** ** Exceptions and the state-and-error monad of a generation run *)

(** What a call can raise: reading a role of the bone set that was never
    assigned, asking the armature for a bone it does not hold, asking the
    widget catalog for a widget type it does not hold, or an operator of the
    host that cannot run in the current context. *)
Inductive Exn : Type :=
  | AttributeError (role : string)
  | KeyError (bone : string)
  | MetarigError (widget_type : string)
  | RuntimeError (operator : string).

Inductive Result (A : Type) : Type :=
  | Ok (a : A)
  | Raise (e : Exn).
Arguments Ok {A} a.
Arguments Raise {A} e.

(** Python truthiness of an optional bone name: [None] and [''] are falsy. *)
Definition truthy (r : option string) : bool :=
  match r with
  | Some s => negb (String.eqb s "")
  | None => false
  end.

(** [a or b] on strings. *)
Definition str_or (a b : string) : string :=
  if String.eqb a "" then b else a.

(** [name.startswith(prefix)]. *)
Definition startswith (name prefix : string) : bool := String.prefix prefix name.

(** Modelled from the spec: a constraint, an ordered entry of the constraint
    stack of a bone, with its name (which carries the routing prefix), its
    type tag and its target bone.  The constraint type of the host is not in
    this file. *)
Record Constraint : Type := mkConstraint {
  name : string;
  con_type : string;
  subtarget : option string
}.

#[global] Instance Constraint_eq_dec : EqDecision Constraint.
Proof. solve_decision. Defined.

(** The calls a rig makes into its collaborators, in the order made. *)
Inductive Call : Type :=
  | CopyBone (src new_name : string) (parent bbone : bool)
  | SetBoneParent (child : string) (new_parent : option string)
      (use_connect : option bool)
  | RelinkBoneParent (bone : string)
  | CopyBoneProperties (src dst : string)
  | RelinkBoneConstraints (bone : string)
  | RelinkMoveConstraints (from_bone to_bone prefix : string)
  | MakeConstraint (bone type target : string) (insert_index : option nat)
  | CreateRegisteredWidget (bone widget_type : string)
  | CreateBoneWidget (bone : string).

#[global] Instance Call_eq_dec : EqDecision Call.
Proof. solve_decision. Defined.

Definition is_widget_call (c : Call) : bool :=
  match c with
  | CreateRegisteredWidget _ _ | CreateBoneWidget _ => true
  | _ => false
  end.

Definition is_make_constraint (c : Call) : bool :=
  match c with
  | MakeConstraint _ _ _ _ => true
  | _ => false
  end.

Definition sets_parent_of (b : string) (c : Call) : bool :=
  match c with
  | SetBoneParent child _ _ => String.eqb child b
  | _ => false
  end.

(** The widget a bone displays. *)
Inductive Widget : Type :=
  | RegisteredWidget (widget_type : string)
  | BoneWidget.

(** [self.params], as declared by [Rig.add_parameters]. *)
Module Params.
Record t : Type := mk {
  make_control : bool;
  make_widget : bool;
  super_copy_widget_type : string;
  make_deform : bool
}.

(** The defaults of the four properties. *)
Definition default : t :=
  {| make_control := true; make_widget := true;
     super_copy_widget_type := "circle"; make_deform := true |}.
End Params.

(** Modelled from the spec: [self.bones], whose class is defined in
    [utils.bones].  The role [org] is always assigned, [ctrl] and [deform]
    only once [generate_bones] has assigned them; reading a role that is not
    assigned raises. *)
Record BoneSet : Type := mkBoneSet {
  org : string;
  ctrl : option string;
  deform : option string
}.

(** The attributes [Rig.initialize] stores on the instance. *)
Record Rig : Type := mkRig {
  params : Params.t;
  org_name : string;
  make_control : bool;
  make_widget : bool;
  make_deform : bool
}.

(** Modelled from the spec: a bone of the armature, with its parent
    reference, its connected flag, its constraint stack and its widget.  Head,
    tail and roll ([Geometry]) and the display, lock and rotation-mode
    properties of the pose bone ([Props]) are opaque. *)
Record Bone (Geometry Props : Type) : Type := mkBone {
  geometry : Geometry;
  parent : option string;
  use_connect : bool;
  bbone : bool;
  properties : Props;
  constraints : list Constraint;
  custom_shape : option Widget
}.
Arguments mkBone {Geometry Props}.
Arguments geometry {Geometry Props}.
Arguments parent {Geometry Props}.
Arguments use_connect {Geometry Props}.
Arguments bbone {Geometry Props}.
Arguments properties {Geometry Props}.
Arguments constraints {Geometry Props}.
Arguments custom_shape {Geometry Props}.

(** What a generation run works on: the armature, [self.bones], and the calls
    made so far. *)
Record RigState (Geometry Props : Type) : Type := mkState {
  armature : gmap string (Bone Geometry Props);
  bones : BoneSet;
  trace : list Call
}.
Arguments mkState {Geometry Props}.
Arguments armature {Geometry Props}.
Arguments bones {Geometry Props}.
Arguments trace {Geometry Props}.

(** ** The host

    The naming helpers of [utils.naming], the uniqueness policy of the bone
    store, the relink rules of the armature and the naming conventions of the
    constraint store.  Their code is outside this file; the rig only calls
    them, so they are parameters of the development. *)
Class Host (Geometry Props : Type) : Type := {
  strip_org : string → string;
  make_deformer_name : string → string;
  (** the name the bone store gives a new bone asked to be called [n] *)
  unique_name : gmap string (Bone Geometry Props) → string → string;
  (** the properties a new bone starts with *)
  default_properties : Props;
  (** the relink rules: bone and its original parent to its new parent *)
  relink_parent : string → option string → option string;
  (** the armature-wide rename map for constraint targets *)
  rename_map : string → string;
  (** the name the constraint store gives a new constraint of a type *)
  default_name : string → string;
  (** the name a constraint moved for a prefix carries afterwards *)
  moved_name : string → string → string;
  (** the widget catalog: whether a widget is registered under a type *)
  registered_widget : string → bool
}.

Section SuperCopy.

Context {Geometry Props : Type} `{!Host Geometry Props}.

#[local] Abbreviation Bone := (Bone Geometry Props).
#[local] Abbreviation RigState := (RigState Geometry Props).

Definition M (A : Type) : Type := RigState → Result (A * RigState).

#[global] Instance M_ret : MRet M := λ A a s, Ok (a, s).
#[global] Instance M_bind : MBind M := λ A B f m s,
  match m s with
  | Ok (a, s') => f a s'
  | Raise e => Raise e
  end.

Definition raise {A} (e : Exn) : M A := λ _, Raise e.
Definition get_state : M RigState := λ s, Ok (s, s).
Definition put_armature (arm : gmap string Bone) : M unit :=
  λ s, Ok (tt, mkState arm (bones s) (trace s)).
Definition put_bones (bs : BoneSet) : M unit :=
  λ s, Ok (tt, mkState (armature s) bs (trace s)).
Definition log (c : Call) : M unit :=
  λ s, Ok (tt, mkState (armature s) (bones s) (trace s ++ [c])).

(** [if c: body] *)
Definition when (c : bool) (body : M unit) : M unit :=
  if c then body else mret tt.

(** *** Reading and assigning the roles of [self.bones] *)

Definition bones_org : M string := s ← get_state; mret (org (bones s)).

Definition bones_ctrl : M string :=
  s ← get_state;
  match ctrl (bones s) with
  | Some b => mret b
  | None => raise (AttributeError "ctrl")
  end.

Definition bones_deform : M string :=
  s ← get_state;
  match deform (bones s) with
  | Some b => mret b
  | None => raise (AttributeError "deform")
  end.

Definition set_bones_ctrl (b : string) : M unit :=
  s ← get_state;
  put_bones (mkBoneSet (org (bones s)) (Some b) (deform (bones s))).

Definition set_bones_deform (b : string) : M unit :=
  s ← get_state;
  put_bones (mkBoneSet (org (bones s)) (ctrl (bones s)) (Some b)).

(** *** The armature *)

Definition get_bone (b : string) : M Bone :=
  s ← get_state;
  match armature s !! b with
  | Some bone => mret bone
  | None => raise (KeyError b)
  end.

Definition update_bone (b : string) (f : Bone → Bone) : M unit :=
  bone ← get_bone b;
  s ← get_state;
  put_armature (<[b := f bone]> (armature s)).

Definition with_parent (p : option string) (uc : option bool) (b : Bone) : Bone :=
  mkBone (geometry b) p (default (use_connect b) uc) (bbone b)
         (properties b) (constraints b) (custom_shape b).

Definition with_properties (p : Props) (b : Bone) : Bone :=
  mkBone (geometry b) (parent b) (use_connect b) (bbone b)
         p (constraints b) (custom_shape b).

Definition with_constraints (cs : list Constraint) (b : Bone) : Bone :=
  mkBone (geometry b) (parent b) (use_connect b) (bbone b)
         (properties b) cs (custom_shape b).

Definition with_custom_shape (w : Widget) (b : Bone) : Bone :=
  mkBone (geometry b) (parent b) (use_connect b) (bbone b)
         (properties b) (constraints b) (Some w).

(** ** The collaborators *)

(** Modelled from the spec: [BaseRig.copy_bone], defined in [base_rig] and
    [utils.bones].  The contract is
    [copy_bone(source, new_name, parent_flag, bendy_flag) -> bone_name]: the
    new bone is a geometric duplicate of the source, its name is settled by
    the uniqueness policy of the bone store, it inherits the parent of the
    source when [parent_flag] is set and has bendy-bone segmentation when
    [bendy_flag] is set.  A new bone starts with no constraint and no
    widget.  Both flags default to false. *)
Definition copy_bone (src new_name : string) (parent_flag bbone_flag : bool)
  : M string :=
  log (CopyBone src new_name parent_flag bbone_flag);;
  b ← get_bone src;
  s ← get_state;
  let n := unique_name (armature s) new_name in
  put_armature
    (<[n := mkBone (geometry b)
                   (if parent_flag then parent b else None)
                   (if parent_flag then use_connect b else false)
                   bbone_flag default_properties [] None]> (armature s));;
  mret n.

(** Modelled from the spec: [BaseRig.set_bone_parent], defined in
    [base_rig].  The contract is
    [set_bone_parent(child, parent, connect_flag)]; the connect flag of the
    child is only written when the caller passes one. *)
Definition set_bone_parent (child : string) (new_parent : option string)
    (uc : option bool) : M unit :=
  log (SetBoneParent child new_parent uc);;
  update_bone child (with_parent new_parent uc).

(** Modelled from the spec: [RelinkConstraintsMixin.relink_bone_parent],
    defined in [rigs.basic.raw_copy].  It maps the original parent of the
    bone to a possibly different bone by the relink rules of the armature,
    applies the result as the parent of the bone, leaving the bone a root
    when the result is empty or none, and returns the result. *)
Definition relink_bone_parent (b : string) : M (option string) :=
  log (RelinkBoneParent b);;
  bone ← get_bone b;
  let r := relink_parent b (parent bone) in
  update_bone b (with_parent (if truthy r then r else None) None);;
  mret r.

(** Modelled from the spec: [BaseRig.copy_bone_properties], defined in
    [base_rig].  Copies the editing properties of [src] onto [dst],
    verbatim. *)
Definition copy_bone_properties (src dst : string) : M unit :=
  log (CopyBoneProperties src dst);;
  b ← get_bone src;
  update_bone dst (with_properties (properties b)).

Definition relink_constraint (c : Constraint) : Constraint :=
  mkConstraint (name c) (con_type c) (rename_map <$> subtarget c).

(** Modelled from the spec: [RelinkConstraintsMixin.relink_bone_constraints],
    defined in [rigs.basic.raw_copy].  Rewrites the targets of the
    constraints of the bone by the rename map of the armature; the list, its
    order and its owner are unchanged and no entry is added or removed. *)
Definition relink_bone_constraints (b : string) : M unit :=
  log (RelinkBoneConstraints b);;
  update_bone b (λ bone, with_constraints (relink_constraint <$> constraints bone) bone).

Definition has_prefix (prefix : string) (c : Constraint) : bool :=
  startswith (name c) prefix.

Definition moved_constraint (prefix : string) (c : Constraint) : Constraint :=
  mkConstraint (moved_name prefix (name c)) (con_type c) (subtarget c).

(** Modelled from the spec: [RelinkConstraintsMixin.relink_move_constraints],
    defined in [rigs.basic.raw_copy].  Moves every constraint of [from_bone]
    whose name starts with [prefix] to the end of the stack of [to_bone],
    in their relative order; whether the prefix is kept in the name of a
    moved constraint is the convention of the host ([moved_name]). *)
Definition relink_move_constraints (from_bone to_bone prefix : string) : M unit :=
  log (RelinkMoveConstraints from_bone to_bone prefix);;
  src ← get_bone from_bone;
  update_bone from_bone
    (with_constraints (filter (λ c, has_prefix prefix c = false) (constraints src)));;
  update_bone to_bone
    (λ dst, with_constraints
       (constraints dst ++
          (moved_constraint prefix <$> filter (λ c, has_prefix prefix c = true) (constraints src)))
       dst).

(** Position [i] of the stack, or its end when the stack is shorter. *)
Definition insert_at {A} (i : nat) (x : A) (l : list A) : list A :=
  take i l ++ x :: drop i l.

(** Modelled from the spec: [BaseRig.make_constraint], defined in
    [base_rig] and [utils.mechanism].  The contract is
    [add_constraint(bone, type, target, insert_index)]: a new constraint of
    the given type and target, named by the host, is put on the stack of
    the bone at [insert_index], or at its end when no index is given. *)
Definition make_constraint (b type target : string) (insert_index : option nat)
  : M unit :=
  log (MakeConstraint b type target insert_index);;
  update_bone b (λ bone,
    let con := mkConstraint (default_name type) type (Some target) in
    with_constraints
      (match insert_index with
       | Some i => insert_at i con (constraints bone)
       | None => constraints bone ++ [con]
       end) bone).

(** Modelled from the spec: [create_registered_widget], defined in
    [utils.widgets].  Asks the catalog for the widget registered under
    [widget_type] and binds it to the bone; a type the catalog does not
    hold is the failure of the catalog and aborts the stage. *)
Definition create_registered_widget (b widget_type : string) : M unit :=
  log (CreateRegisteredWidget b widget_type);;
  if registered_widget widget_type
  then update_bone b (with_custom_shape (RegisteredWidget widget_type))
  else raise (MetarigError widget_type).

(** Modelled from the spec: [create_bone_widget], defined in
    [utils.widgets_basic].  Binds the default bone shape to the bone. *)
Definition create_bone_widget (b : string) : M unit :=
  log (CreateBoneWidget b);;
  update_bone b (with_custom_shape BoneWidget).

(** ** The rig: [class Rig(BaseRig, RelinkConstraintsMixin)] *)

Definition find_org_bones (pose_bone_name : string) : string := pose_bone_name.

Definition initialize (p : Params.t) : M Rig :=
  o ← bones_org;
  mret (mkRig p (strip_org o) (Params.make_control p) (Params.make_widget p)
              (Params.make_deform p)).

Definition generate_bones (self : Rig) : M unit :=
  when (make_control self)
    (o ← bones_org;
     c ← copy_bone o (org_name self) true false;
     set_bones_ctrl c);;
  when (make_deform self)
    (o ← bones_org;
     d ← copy_bone o (make_deformer_name (org_name self)) false true;
     set_bones_deform d).

Definition parent_bones (self : Rig) : M unit :=
  when (make_deform self)
    (d ← bones_deform;
     o ← bones_org;
     set_bone_parent d (Some o) (Some false));;
  o ← bones_org;
  new_parent ← relink_bone_parent o;
  when (make_control self && truthy new_parent)
    (c ← bones_ctrl;
     set_bone_parent c new_parent None).

Definition configure_bones (self : Rig) : M unit :=
  when (make_control self)
    (o ← bones_org;
     c ← bones_ctrl;
     copy_bone_properties o c).

Definition rig_bones (self : Rig) : M unit :=
  o ← bones_org;
  relink_bone_constraints o;;
  when (make_control self)
    (o ← bones_org;
     c ← bones_ctrl;
     relink_move_constraints o c "CTRL:";;
     o ← bones_org;
     c ← bones_ctrl;
     make_constraint o "COPY_TRANSFORMS" c (Some 0));;
  when (make_deform self)
    (o ← bones_org;
     d ← bones_deform;
     relink_move_constraints o d "DEF:").

Definition generate_widgets (self : Rig) : M unit :=
  when (make_control self)
    (if make_widget self then
       c ← bones_ctrl;
       create_registered_widget c
         (str_or (Params.super_copy_widget_type (params self)) "circle")
     else
       c ← bones_ctrl;
       create_bone_widget c).

(** Modelled from the spec: the staged pipeline the generator drives,
    Initialize, Generate Bones, Parent Bones, Configure Bones, Rig and
    Generate Widgets, strictly in this order for one rig instance.  The
    three prefixes stop after the stage they are named for. *)
Definition through_generate (p : Params.t) : M unit :=
  self ← initialize p;
  generate_bones self.

Definition through_parent (p : Params.t) : M unit :=
  self ← initialize p;
  generate_bones self;;
  parent_bones self.

Definition through_rig (p : Params.t) : M unit :=
  self ← initialize p;
  generate_bones self;;
  parent_bones self;;
  configure_bones self;;
  rig_bones self.

Definition generate (p : Params.t) : M unit :=
  self ← initialize p;
  generate_bones self;;
  parent_bones self;;
  configure_bones self;;
  rig_bones self;;
  generate_widgets self.

(** A clean slate: the armature as the metarig left it, [self.bones]
    holding [org] only, nothing called yet. *)
Definition initial_state (arm : gmap string Bone) (o : string) : RigState :=
  mkState arm (mkBoneSet (find_org_bones o) None None) [].

(** *** Observations of a state *)

Definition bone_parent (s : RigState) (b : string) : option (option string) :=
  parent <$> armature s !! b.

Definition bone_stack (s : RigState) (b : string) : option (list Constraint) :=
  constraints <$> armature s !! b.

(** The bones a run has added to the armature [arm] it started from. *)
Definition created (arm : gmap string Bone) (s : RigState) : gset string :=
  dom (armature s) ∖ dom arm.

(** The bones registered under the roles [ctrl] and [deform]. *)
Definition derived (bs : BoneSet) : gset string :=
  from_option singleton ∅ (ctrl bs) ∪ from_option singleton ∅ (deform bs).

(** The constraint [make_constraint(org, 'COPY_TRANSFORMS', ctrl)] creates. *)
Definition copy_transforms_to (c : string) : Constraint :=
  mkConstraint (default_name "COPY_TRANSFORMS") "COPY_TRANSFORMS" (Some c).

(** A constraint name that carries neither routing prefix. *)
Definition plain (c : Constraint) : bool :=
  negb (has_prefix "CTRL:" c) && negb (has_prefix "DEF:" c).

(** The constraints of org no move takes away under the given flags. *)
Definition stays (mc md : bool) (c : Constraint) : bool :=
  negb (mc && has_prefix "CTRL:" c) && negb (md && has_prefix "DEF:" c).

(** What is left of an initial stack [cs] of org, targets rewritten. *)
Definition remaining (mc md : bool) (cs : list Constraint) : list Constraint :=
  relink_constraint <$> filter (λ c, stays mc md c = true) cs.

(** What an initial stack [cs] of org sends to the bone of a prefix. *)
Definition relocated (prefix : string) (cs : list Constraint) : list Constraint :=
  moved_constraint prefix <$>
    (relink_constraint <$> filter (λ c, has_prefix prefix c = true) cs).

(** The widget a run asks the catalog for, if it asks for one, is
    registered. *)
Definition widget_available (p : Params.t) : Prop :=
  Params.make_control p = true →
  Params.make_widget p = true →
  registered_widget (str_or (Params.super_copy_widget_type p) "circle") = true.

(** *** Stages and role safety *)

Inductive Stage : Type :=
  | GenerateBones | ParentBones | ConfigureBones | RigBones | GenerateWidgets.

Definition run_stage (st : Stage) (self : Rig) : M unit :=
  match st with
  | GenerateBones => generate_bones self
  | ParentBones => parent_bones self
  | ConfigureBones => configure_bones self
  | RigBones => rig_bones self
  | GenerateWidgets => generate_widgets self
  end.

(** Every role the flags of [self] ask for is assigned in [bs]. *)
Definition registered (self : Rig) (bs : BoneSet) : Prop :=
  (make_control self = true → is_Some (ctrl bs)) ∧
  (make_deform self = true → is_Some (deform bs)).

(** A triple for role safety: from a state in [P] the computation never
    reads an unassigned role, and when it returns it does so in [Q].  A
    missing bone ([KeyError]) is the armature's failure and is allowed, and
    so is every other failure of a collaborator. *)
Definition role_safe {A} (P : RigState → Prop) (m : M A)
    (Q : A → RigState → Prop) : Prop :=
  ∀ s, P s →
    match m s with
    | Ok (a, s') => Q a s'
    | Raise (AttributeError _) => False
    | Raise _ => True
    end.

(** A collaborator call leaves [self.bones] alone: whatever holds of the
    roles before holds after, and no role is read unassigned. *)
Definition keeps_roles {A} (m : M A) : Prop :=
  ∀ I : BoneSet → Prop,
    role_safe (λ s, I (bones s)) m (λ _ s', I (bones s')).

(** The stack of the bone registered under a role, empty when the role is
    not assigned. *)
Definition role_stack (s : RigState) (r : option string) : list Constraint :=
  default [] (r ≫= bone_stack s).

(** What a constraint does, whatever it is called. *)
Definition payload (c : Constraint) : string * option string :=
  (con_type c, subtarget c).

(** *** What a stage may change *)

(** Two bones that differ at most in their parent and connected flag. *)
Definition same_but_parent (x y : Bone) : Prop :=
  geometry y = geometry x ∧ bbone y = bbone x ∧
  properties y = properties x ∧ constraints y = constraints x ∧
  custom_shape y = custom_shape x.

(** Two bones that differ at most in their properties. *)
Definition same_but_properties (x y : Bone) : Prop :=
  geometry y = geometry x ∧ parent y = parent x ∧
  use_connect y = use_connect x ∧ bbone y = bbone x ∧
  constraints y = constraints x ∧ custom_shape y = custom_shape x.

(** Two bones that differ at most in their constraint stack. *)
Definition same_but_constraints (x y : Bone) : Prop :=
  geometry y = geometry x ∧ parent y = parent x ∧
  use_connect y = use_connect x ∧ bbone y = bbone x ∧
  properties y = properties x ∧ custom_shape y = custom_shape x.

(** Two bones that differ at most in their widget. *)
Definition same_but_custom_shape (x y : Bone) : Prop :=
  geometry y = geometry x ∧ parent y = parent x ∧
  use_connect y = use_connect x ∧ bbone y = bbone x ∧
  properties y = properties x ∧ constraints y = constraints x.

(** A computation that, when it returns, has assigned no role, has added
    or removed no bone, and has changed each bone within [R] only. *)
Definition touches_only {A} (R : Bone → Bone → Prop) (m : M A) : Prop :=
  ∀ s a s', m s = Ok (a, s') →
    bones s' = bones s ∧
    dom (armature s') = dom (armature s) ∧
    ∀ b x, armature s !! b = Some x →
      ∃ y, armature s' !! b = Some y ∧ R x y.

End SuperCopy.

(** ** The sample metarig of [create_sample], with a parent and constraints *)

Module Sample.

(** Head, tail (in tenths of a unit) and roll. *)
Definition Geometry : Type := (Z * Z * Z) * (Z * Z * Z) * Z.

(** The rotation mode. *)
Definition Props : Type := string.

(** [ORG-] is the decoration of an org bone, [DEF-] that of a deform bone;
    a taken bone name gets a numeric suffix; constraints that are moved
    keep their name. *)
#[global] Instance host : Host Geometry Props := {|
  strip_org n := if String.prefix "ORG-" n then String.substring 4 (String.length n - 4) n else n;
  make_deformer_name n := "DEF-" +:+ n;
  unique_name m n := fresh_string n m;
  default_properties := "XYZ";
  relink_parent b old :=
    if String.eqb b "ORG-Bone" then Some "root"
    else if String.eqb b "ORG-loose" then Some ""
    else old;
  rename_map n := if String.eqb n "ORG-target" then "target" else n;
  default_name ty := if String.eqb ty "COPY_TRANSFORMS" then "Copy Transforms" else ty;
  moved_name prefix n := n;
  registered_widget w :=
    bool_decide (w ∈ ["circle"; "bone"; "cube"; "sphere"; "diamond"])
|}.

Definition bone : Bone Geometry Props :=
  mkBone ((0, 0, 0), (0, 0, 2), 0)%Z (Some "ORG-spine") false false "QUATERNION"
    [ mkConstraint "CTRL:Limit" "LIMIT_ROTATION" None;
      mkConstraint "Track" "DAMPED_TRACK" (Some "ORG-target");
      mkConstraint "DEF:Stretch" "STRETCH_TO" (Some "ORG-target");
      mkConstraint "CTRL:Copy" "COPY_LOCATION" (Some "ORG-target") ]
    None.

Definition spine : Bone Geometry Props :=
  mkBone ((0, 0, -2), (0, 0, 0), 0)%Z None false false "QUATERNION" [] None.

(** A bone whose parent the relink rules resolve to nothing. *)
Definition loose : Bone Geometry Props :=
  mkBone ((0, 0, 2), (0, 0, 4), 0)%Z (Some "ORG-spine") false false "QUATERNION"
    [ mkConstraint "Track" "DAMPED_TRACK" (Some "ORG-target") ] None.

Definition arm : gmap string (Bone Geometry Props) :=
  <["ORG-Bone" := bone]>
    (<["ORG-loose" := loose]> (<["ORG-spine" := spine]> (<["root" := spine]> ∅))).

Definition state_of (r : Result (unit * RigState Geometry Props))
  : option (RigState Geometry Props) :=
  match r with Ok (_, s) => Some s | Raise _ => None end.

End Sample.

(** ** The parameter schema: [Rig.add_parameters] *)

(** A value of a declared property. *)
Inductive PropValue : Type :=
  | BoolValue (b : bool)
  | StringValue (s : string).

(** One [bpy.props] declaration: the attribute of [params] it is assigned to
    and its [name], [default] and [description]. *)
Record PropertyDecl : Type := mkDecl {
  decl_attr : string;
  decl_name : string;
  decl_default : PropValue;
  decl_description : string
}.

(** [add_parameters]: the four declarations of the rig, in order, followed by
    the declarations [add_relink_constraints_params] of the relink mixin
    makes ([mixin_decls], not in this file). *)
Definition add_parameters (mixin_decls : list PropertyDecl) : list PropertyDecl :=
  [ mkDecl "make_control" "Control" (BoolValue true)
      "Create a control bone for the copy";
    mkDecl "make_widget" "Widget" (BoolValue true)
      "Choose a widget for the bone control";
    mkDecl "super_copy_widget_type" "Widget Type" (StringValue "circle")
      "Choose the type of the widget to create";
    mkDecl "make_deform" "Deform" (BoolValue true)
      "Create a deform bone for the copy" ] ++ mixin_decls.

(** ** The parameter interface: [Rig.parameters_ui] *)

Module UI.

(** What a layout holds, in the order added. *)
Inductive Item : Type :=
  | Property (attr : string)
  | WidgetDropdown (attr text : string)
  | Label (text icon : string)
  | RelinkOptions
  | Sub (layout : nat).

#[global] Instance Item_eq_dec : EqDecision Item.
Proof. solve_decision. Defined.

Inductive Kind : Type :=
  | Root
  | Split (factor : string)
  | Row (align : bool)
  | Column.

(** A layout of the interface; [parent] is the layout it was made in. *)
Record Layout : Type := mkLayout {
  kind : Kind;
  parent : option nat;
  enabled : bool;
  items : list Item
}.

(** The layouts made so far; a layout is referred to by its position. *)
Definition Store : Type := list Layout.

(** The layout the host hands to [parameters_ui]. *)
Definition fresh : Store := [mkLayout Root None true []].

Definition add_item (l : nat) (i : Item) (st : Store) : Store :=
  alter (λ x, mkLayout (kind x) (parent x) (enabled x) (items x ++ [i])) l st.

(** [l.enabled = b] *)
Definition set_enabled (l : nat) (b : bool) (st : Store) : Store :=
  alter (λ x, mkLayout (kind x) (parent x) b (items x)) l st.

(** [l.split(...)], [l.row(...)], [l.column()]: a new enabled layout inside
    [l]; returns it with the new store. *)
Definition sub_layout (l : nat) (k : Kind) (st : Store) : nat * Store :=
  let n := length st in
  (n, add_item l (Sub n) st ++ [mkLayout k (Some l) true []]).

(** A layout can be used when it and every layout around it is enabled. *)
Fixpoint usable_upto (fuel : nat) (st : Store) (l : nat) : bool :=
  match fuel with
  | 0 => false
  | S fuel =>
      match st !! l with
      | Some x =>
          enabled x &&
          match parent x with
          | Some q => usable_upto fuel st q
          | None => true
          end
      | None => false
      end
  end.

Definition usable (st : Store) (l : nat) : bool := usable_upto (S (length st)) st l.

(** The layouts that hold an item. *)
Definition holders (st : Store) (i : Item) : list nat :=
  (λ x, x.1) <$> filter (λ x, i ∈ items x.2) (imap pair st).

(** An item can be operated when some usable layout holds it. *)
Definition operable (st : Store) (i : Item) : bool :=
  existsb (usable st) (holders st i).

Definition shown (st : Store) (i : Item) : bool :=
  bool_decide (holders st i ≠ []).

End UI.

Definition ctrl_hint : UI.Item :=
  UI.Label "'CTRL:...' constraints are moved to the control bone." "INFO".

Definition def_hint : UI.Item :=
  UI.Label "'DEF:...' constraints are moved to the deform bone." "INFO".

(** Modelled from the spec: [layout_widget_dropdown], defined in
    [utils.widgets]: puts the selector of a widget type, bound to an
    attribute of [params], in a layout. *)
Definition layout_widget_dropdown (l : nat) (attr text : string) (st : UI.Store)
  : UI.Store :=
  UI.add_item l (UI.WidgetDropdown attr text) st.

(** Modelled from the spec: [add_relink_constraints_ui], defined in
    [rigs.basic.raw_copy]: draws the options of the relink mixin in a layout;
    what it draws is opaque here. *)
Definition add_relink_constraints_ui (l : nat) (st : UI.Store) : UI.Store :=
  UI.add_item l UI.RelinkOptions st.

(** [parameters_ui(layout, params)], where [relink_constraints] is the
    parameter of that name the relink mixin declares.  The split factor is
    kept as the decimal literal of the source. *)
Definition parameters_ui (layout : nat) (p : Params.t) (relink_constraints : bool)
    (st : UI.Store) : UI.Store :=
  let st := UI.add_item layout (UI.Property "make_control") st in
  let '(row, st) := UI.sub_layout layout (UI.Split "0.3") st in
  let st := UI.add_item row (UI.Property "make_widget") st in
  let st := UI.set_enabled row (Params.make_control p) st in
  let '(row2, st) := UI.sub_layout row (UI.Row true) st in
  let st := UI.set_enabled row2 (Params.make_widget p) st in
  let st := layout_widget_dropdown row2 "super_copy_widget_type" "" st in
  let st := UI.add_item layout (UI.Property "make_deform") st in
  let st := add_relink_constraints_ui layout st in
  if relink_constraints && (Params.make_control p || Params.make_deform p) then
    let '(col, st) := UI.sub_layout layout UI.Column st in
    let st := if Params.make_control p then UI.add_item col ctrl_hint st else st in
    let st := if Params.make_deform p then UI.add_item col def_hint st else st in
    st
  else st.

(** Two parameter records that agree except, possibly, on one attribute. *)
Definition agree_except (attr : string) (p q : Params.t) : Prop :=
  (attr = "make_control" ∨ Params.make_control p = Params.make_control q) ∧
  (attr = "make_widget" ∨ Params.make_widget p = Params.make_widget q) ∧
  (attr = "super_copy_widget_type" ∨
   Params.super_copy_widget_type p = Params.super_copy_widget_type q) ∧
  (attr = "make_deform" ∨ Params.make_deform p = Params.make_deform q).

(** The item of the interface that edits an attribute of [params]. *)
Definition editor_of (attr : string) : UI.Item :=
  if String.eqb attr "super_copy_widget_type"
  then UI.WidgetDropdown attr ""
  else UI.Property attr.

(** The attribute an item edits, if it edits one. *)
Definition edited_attr (i : UI.Item) : option string :=
  match i with
  | UI.Property attr | UI.WidgetDropdown attr _ => Some attr
  | _ => None
  end.

(** ** The sample metarig: [create_sample] *)

#[global] Instance Result_ret : MRet Result := λ A a, Ok a.
#[global] Instance Result_bind : MBind Result := λ A B f r,
  match r with
  | Ok a => f a
  | Raise e => Raise e
  end.

Module Metarig.

(** A bone of a metarig, with what [create_sample] reads and writes of its
    edit bone and its pose bone.  Coordinates are kept as the decimal
    literals of the source. *)
Record Bone : Type := mkBone {
  head : string * string * string;
  tail : string * string * string;
  roll : string;
  use_connect : bool;
  select : bool;
  select_head : bool;
  select_tail : bool;
  rigify_type : string;
  lock_location : bool * bool * bool;
  lock_rotation : bool * bool * bool;
  lock_rotation_w : bool;
  lock_scale : bool * bool * bool;
  rotation_mode : string
}.

(** An armature object: its bones by name, the names that have a pose bone,
    the active edit bone and the mode the object is in.  A bone made in edit
    mode gets its pose bone when the object leaves edit mode. *)
Record Obj : Type := mkObj {
  edit_bones : gmap string Bone;
  pose_bones : gset string;
  active : option string;
  mode : string
}.

(** The context operators run in: the objects of the scene by name and the
    active object, if there is one. *)
Record Context : Type := mkContext {
  objects : gmap string Obj;
  active_object : option string
}.

Definition set_mode (m : string) (o : Obj) : Obj :=
  mkObj (edit_bones o)
        (if String.eqb m "EDIT" then pose_bones o else dom (edit_bones o))
        (active o) m.

Definition put_bones (bs : gmap string Bone) (o : Obj) : Obj :=
  mkObj bs (pose_bones o) (active o) (mode o).

Definition set_active (b : string) (o : Obj) : Obj :=
  mkObj (edit_bones o) (pose_bones o) (Some b) (mode o).

Definition put_object (name : string) (o : Obj) (ctx : Context) : Context :=
  mkContext (<[name := o]> (objects ctx)) (active_object ctx).

Definition with_rest (h t : string * string * string) (r : string) (uc : bool) (b : Bone) : Bone :=
  mkBone h t r uc (select b) (select_head b) (select_tail b) (rigify_type b)
    (lock_location b) (lock_rotation b) (lock_rotation_w b) (lock_scale b)
    (rotation_mode b).

Definition with_pose (ty : string) (ll lr : bool * bool * bool) (lw : bool)
    (ls : bool * bool * bool) (rm : string) (b : Bone) : Bone :=
  mkBone (head b) (tail b) (roll b) (use_connect b) (select b) (select_head b)
    (select_tail b) ty ll lr lw ls rm.

Definition with_select (v : bool) (b : Bone) : Bone :=
  mkBone (head b) (tail b) (roll b) (use_connect b) v v v (rigify_type b)
    (lock_location b) (lock_rotation b) (lock_rotation_w b) (lock_scale b)
    (rotation_mode b).

(** The object a Python reference stands for. *)
Definition get_object (obj : string) (ctx : Context) : Result Obj :=
  match objects ctx !! obj with
  | Some o => Ok o
  | None => Raise (KeyError obj)
  end.

(** [bpy.ops.object.mode_set(mode=m)]: the operator takes no object; it
    switches the mode of the active object of the context, and it cannot run
    when the context has none. *)
Definition mode_set (m : string) (ctx : Context) : Result Context :=
  match active_object ctx with
  | Some a =>
      match objects ctx !! a with
      | Some o => Ok (put_object a (set_mode m o) ctx)
      | None => Raise (RuntimeError "object.mode_set")
      end
  | None => Raise (RuntimeError "object.mode_set")
  end.

(** [arm.edit_bones[n]] followed by writes to the bone: the edit bones of an
    armature are only there while its object is in edit mode. *)
Definition update_edit_bone (obj n : string) (f : Bone → Bone) (ctx : Context)
  : Result Context :=
  o ← get_object obj ctx;
  if String.eqb (mode o) "EDIT" then
    match edit_bones o !! n with
    | Some b => Ok (put_object obj (put_bones (<[n := f b]> (edit_bones o)) o) ctx)
    | None => Raise (KeyError n)
    end
  else Raise (KeyError n).

(** [obj.pose.bones[n]] followed by writes to the pose bone. *)
Definition update_pose_bone (obj n : string) (f : Bone → Bone) (ctx : Context)
  : Result Context :=
  o ← get_object obj ctx;
  if bool_decide (n ∈ pose_bones o) then
    match edit_bones o !! n with
    | Some b => Ok (put_object obj (put_bones (<[n := f b]> (edit_bones o)) o) ctx)
    | None => Raise (KeyError n)
    end
  else Raise (KeyError n).

(** [for bone in arm.edit_bones: ...], writing to every edit bone; outside
    edit mode there is none to visit. *)
Definition update_edit_bones (obj : string) (f : Bone → Bone) (ctx : Context)
  : Result Context :=
  o ← get_object obj ctx;
  if String.eqb (mode o) "EDIT"
  then Ok (put_object obj (put_bones (f <$> edit_bones o) o) ctx)
  else Ok ctx.

(** [arm.edit_bones.active = arm.edit_bones[n]] *)
Definition set_active_bone (obj n : string) (ctx : Context) : Result Context :=
  o ← get_object obj ctx;
  Ok (put_object obj (set_active n o) ctx).

End Metarig.

(** A Python dictionary from names to names, in insertion order. *)
Fixpoint dict_set (k v : string) (d : list (string * string))
  : list (string * string) :=
  match d with
  | [] => [(k, v)]
  | (k', v') :: rest =>
      if String.eqb k' k then (k, v) :: rest else (k', v') :: dict_set k v rest
  end.

Fixpoint dict_get (k : string) (d : list (string * string)) : option string :=
  match d with
  | [] => None
  | (k', v') :: rest => if String.eqb k' k then Some v' else dict_get k rest
  end.

(** [d[k]] *)
Definition dict_item (k : string) (d : list (string * string)) : Result string :=
  match dict_get k d with
  | Some v => Ok v
  | None => Raise (KeyError k)
  end.

Section CreateSample.

(** [arm.edit_bones.new(name)] of the host: the bone it makes ([blank]) and
    the name it gives it ([new_name]). *)
Context (new_name : gmap string Metarig.Bone → string → string)
        (blank : Metarig.Bone).

(** [arm.edit_bones.new(name)]: only an armature whose object is in edit mode
    takes a new edit bone. *)
Definition edit_bones_new (obj name : string) (ctx : Metarig.Context)
  : Result (string * Metarig.Context) :=
  o ← Metarig.get_object obj ctx;
  if String.eqb (Metarig.mode o) "EDIT" then
    let n := new_name (Metarig.edit_bones o) name in
    Ok (n, Metarig.put_object obj
             (Metarig.put_bones (<[n := blank]> (Metarig.edit_bones o)) o) ctx)
  else Raise (RuntimeError "edit_bones.new").

(** The last loop of [create_sample], [for b in bones]: select the bone each
    key names and make it the active one. *)
Fixpoint select_named (obj : string) (bones : list (string * string))
    (keys : list string) (ctx : Metarig.Context) : Result Metarig.Context :=
  match keys with
  | [] => Ok ctx
  | b :: rest =>
      n ← dict_item b bones;
      ctx ← Metarig.update_edit_bone obj n (Metarig.with_select true) ctx;
      ctx ← Metarig.set_active_bone obj n ctx;
      select_named obj bones rest ctx
  end.

(** [create_sample(obj)] in a context: returns the dictionary [bones] and the
    context as it leaves it. *)
Definition create_sample (obj : string) (ctx : Metarig.Context)
  : Result (list (string * string) * Metarig.Context) :=
  ctx ← Metarig.mode_set "EDIT" ctx;
  let bones : list (string * string) := [] in
  r ← edit_bones_new obj "Bone" ctx;
  let '(n, ctx) := r in
  ctx ← Metarig.update_edit_bone obj n
          (Metarig.with_rest ("0.0000", "0.0000", "0.0000")
             ("0.0000", "0.0000", "0.2000") "0.0000" false) ctx;
  let bones := dict_set "Bone" n bones in
  ctx ← Metarig.mode_set "OBJECT" ctx;
  k ← dict_item "Bone" bones;
  ctx ← Metarig.update_pose_bone obj k
          (Metarig.with_pose "basic.super_copy" (false, false, false)
             (false, false, false) false (false, false, false) "QUATERNION")
          ctx;
  ctx ← Metarig.mode_set "EDIT" ctx;
  ctx ← Metarig.update_edit_bones obj (Metarig.with_select false) ctx;
  ctx ← select_named obj bones bones.*1 ctx;
  mret (bones, ctx).


End CreateSample.

(** A scene whose active object is a metarig that already holds a selected
    bone called ["Bone"]. *)
Module SampleMetarig.

Definition result_of {A} (r : Result A) : option A :=
  match r with Ok a => Some a | Raise _ => None end.

Definition blank : Metarig.Bone :=
  Metarig.mkBone ("0.0000", "0.0000", "0.0000") ("0.0000", "1.0000", "0.0000")
    "0.0000" false false false false "" (false, false, false)
    (false, false, false) false (false, false, false) "QUATERNION".

Definition old : Metarig.Bone :=
  Metarig.mkBone ("0.0000", "0.0000", "0.0000") ("0.0000", "0.0000", "1.0000")
    "0.0000" false true true true "basic.raw_copy" (true, false, false)
    (false, false, false) false (false, false, false) "XYZ".

Definition new_name (m : gmap string Metarig.Bone) (n : string) : string :=
  fresh_string n m.

Definition obj : Metarig.Obj :=
  Metarig.mkObj (<["Bone" := old]> ∅) {["Bone"]} (Some "Bone") "OBJECT".

Definition ctx : Metarig.Context :=
  Metarig.mkContext (<["metarig" := obj]> ∅) (Some "metarig").

End SampleMetarig.

(** * Verification *)

Section Proofs.

Context {Geometry Props : Type} `{!Host Geometry Props}.

#[local] Abbreviation Bone := (Bone Geometry Props).
#[local] Abbreviation RigState := (RigState Geometry Props).
#[local] Abbreviation M := (M (Geometry:=Geometry) (Props:=Props)).

Ltac unfold_ops :=
  unfold through_parent, through_rig, through_generate, generate,
    initial_state, initialize, generate_bones, parent_bones,
    configure_bones, rig_bones, generate_widgets,
    copy_bone, set_bone_parent, relink_bone_parent, copy_bone_properties,
    relink_bone_constraints, relink_move_constraints, make_constraint,
    create_registered_widget, create_bone_widget,
    update_bone, get_bone, bones_org, bones_ctrl, bones_deform,
    set_bones_ctrl, set_bones_deform, log, put_armature, put_bones,
    get_state, raise, when, find_org_bones, mbind, M_bind, mret, M_ret in *.

(** ** Prefixes and stacks *)

Lemma def_prefix_not_ctrl (c : Constraint) :
  has_prefix "DEF:" c = true → has_prefix "CTRL:" c = false.
Proof.
  unfold has_prefix, startswith. destruct (name c) as [|a n]; [done|].
  cbn. repeat case_match; congruence.
Qed.

Lemma has_prefix_relink prefix (c : Constraint) :
  has_prefix prefix (relink_constraint c) = has_prefix prefix c.
Proof. reflexivity. Qed.

Lemma filter_relink prefix (b : bool) (l : list Constraint) :
  filter (λ c, has_prefix prefix c = b) (relink_constraint <$> l) =
  relink_constraint <$> filter (λ c, has_prefix prefix c = b) l.
Proof.
  induction l as [|c l IH]; [done|].
  rewrite fmap_cons, !filter_cons, has_prefix_relink, IH.
  by case_decide.
Qed.

Lemma insert_at_front {A} (x : A) (l : list A) : insert_at 0 x l = x :: l.
Proof. unfold insert_at. by rewrite take_0, drop_0. Qed.

Lemma remaining_none (cs : list Constraint) :
  remaining false false cs = relink_constraint <$> cs.
Proof.
  unfold remaining. f_equal. induction cs as [|c cs IH]; [done|].
  rewrite filter_cons_True by done. by rewrite IH.
Qed.

Lemma remaining_ctrl (cs : list Constraint) :
  remaining true false cs =
  filter (λ c, has_prefix "CTRL:" c = false) (relink_constraint <$> cs).
Proof.
  unfold remaining. rewrite filter_relink. f_equal.
  apply list_filter_iff. intros c. unfold stays. cbn.
  destruct (has_prefix "CTRL:" c); cbn; intuition congruence.
Qed.

Lemma remaining_def (cs : list Constraint) :
  remaining false true cs =
  filter (λ c, has_prefix "DEF:" c = false) (relink_constraint <$> cs).
Proof.
  unfold remaining. rewrite filter_relink. f_equal.
  apply list_filter_iff. intros c. unfold stays. cbn.
  destruct (has_prefix "DEF:" c); cbn; intuition congruence.
Qed.

Lemma remaining_both (cs : list Constraint) :
  remaining true true cs =
  filter (λ c, has_prefix "DEF:" c = false)
    (filter (λ c, has_prefix "CTRL:" c = false) (relink_constraint <$> cs)).
Proof.
  unfold remaining. rewrite !filter_relink, list_filter_filter. f_equal.
  apply list_filter_iff. intros c. unfold stays. cbn.
  destruct (has_prefix "CTRL:" c), (has_prefix "DEF:" c); cbn; intuition congruence.
Qed.

Lemma relocated_eq prefix (cs : list Constraint) :
  relocated prefix cs =
  moved_constraint prefix <$>
    filter (λ c, has_prefix prefix c = true) (relink_constraint <$> cs).
Proof. unfold relocated. by rewrite filter_relink. Qed.

Lemma plain_sublist_remaining mc md (cs : list Constraint) :
  relink_constraint <$> filter (λ c, plain c = true) cs
    `sublist_of` remaining mc md cs.
Proof.
  unfold remaining. apply fmap_sublist.
  rewrite <- (list_filter_filter_l _ (λ c, stays mc md c = true)).
  - apply sublist_filter.
  - intros c. unfold plain, stays.
    destruct mc, md, (has_prefix "CTRL:" c), (has_prefix "DEF:" c); done.
Qed.

(** ** Role safety *)

Lemma role_safe_ret {A} (P : RigState → Prop) (a : A) :
  role_safe P (mret a) (λ _, P).
Proof. intros s Hs. exact Hs. Qed.

Lemma role_safe_bind {A B} (P : RigState → Prop) (R : A → RigState → Prop)
    (Q : B → RigState → Prop) (m : M A) (f : A → M B) :
  role_safe P m R →
  (∀ a, role_safe (R a) (f a) Q) →
  role_safe P (m ≫= f) Q.
Proof.
  intros Hm Hf s Hs. specialize (Hm s Hs).
  unfold mbind, M_bind. destruct (m s) as [[a s']|[]]; [|done..].
  by apply Hf.
Qed.

Lemma role_safe_when (P : RigState → Prop) (c : bool) (body : M unit) :
  (c = true → role_safe P body (λ _, P)) →
  role_safe P (when c body) (λ _, P).
Proof. destruct c; [auto|]. intros _. apply role_safe_ret. Qed.

Lemma keeps_roles_ret {A} (a : A) : keeps_roles (mret a : M A).
Proof. intros I. apply role_safe_ret. Qed.

Lemma keeps_roles_bind {A B} (m : M A) (f : A → M B) :
  keeps_roles m → (∀ a, keeps_roles (f a)) → keeps_roles (m ≫= f).
Proof. intros Hm Hf I. eapply role_safe_bind; [apply Hm|]. intros a. apply Hf. Qed.

Lemma keeps_roles_log (c : Call) : keeps_roles (log c : M unit).
Proof. intros I s Hs. exact Hs. Qed.

Lemma keeps_roles_get_state : keeps_roles (get_state : M RigState).
Proof. intros I s Hs. exact Hs. Qed.

Lemma keeps_roles_put_armature (arm : gmap string Bone) :
  keeps_roles (put_armature arm).
Proof. intros I s Hs. exact Hs. Qed.

Lemma keeps_roles_get_bone (b : string) : keeps_roles (get_bone b : M Bone).
Proof.
  intros I s Hs. unfold get_bone, get_state, mbind, M_bind. cbn.
  by destruct (armature s !! b).
Qed.

Lemma keeps_roles_bones_org : keeps_roles (bones_org : M string).
Proof. intros I s Hs. exact Hs. Qed.

(** A failure of the widget catalog is no read of a role. *)
Lemma keeps_roles_unknown_widget {A} (w : string) :
  keeps_roles (raise (MetarigError w) : M A).
Proof. intros J s Hs. exact I. Qed.

Ltac keeps :=
  repeat first
    [ apply keeps_roles_ret
    | apply keeps_roles_log
    | apply keeps_roles_get_state
    | apply keeps_roles_put_armature
    | apply keeps_roles_get_bone
    | apply keeps_roles_bones_org
    | apply keeps_roles_unknown_widget
    | lazymatch goal with
      | |- keeps_roles (mbind _ _) => apply keeps_roles_bind; [|intros]
      | |- keeps_roles (if _ then _ else _) => case_match
      end ].

Lemma keeps_roles_update_bone b (f : Bone → Bone) : keeps_roles (update_bone b f).
Proof. unfold update_bone. keeps. Qed.

Lemma keeps_roles_copy_bone src new_name pf bf :
  keeps_roles (copy_bone src new_name pf bf : M string).
Proof. unfold copy_bone. keeps. Qed.

Lemma keeps_roles_set_bone_parent child np uc :
  keeps_roles (set_bone_parent child np uc : M unit).
Proof. unfold set_bone_parent, update_bone. keeps. Qed.

Lemma keeps_roles_relink_bone_parent b : keeps_roles (relink_bone_parent b : M (option string)).
Proof. unfold relink_bone_parent, update_bone. keeps. Qed.

Lemma keeps_roles_copy_bone_properties src dst :
  keeps_roles (copy_bone_properties src dst : M unit).
Proof. unfold copy_bone_properties, update_bone. keeps. Qed.

Lemma keeps_roles_relink_bone_constraints b :
  keeps_roles (relink_bone_constraints b : M unit).
Proof. unfold relink_bone_constraints, update_bone. keeps. Qed.

Lemma keeps_roles_relink_move_constraints from_bone to_bone prefix :
  keeps_roles (relink_move_constraints from_bone to_bone prefix : M unit).
Proof.
  unfold relink_move_constraints, update_bone. keeps.
Qed.

Lemma keeps_roles_make_constraint b type target i :
  keeps_roles (make_constraint b type target i : M unit).
Proof. unfold make_constraint, update_bone. keeps. Qed.

Lemma keeps_roles_create_registered_widget b wt :
  keeps_roles (create_registered_widget b wt : M unit).
Proof. unfold create_registered_widget, update_bone. keeps. Qed.

Lemma keeps_roles_create_bone_widget b : keeps_roles (create_bone_widget b : M unit).
Proof. unfold create_bone_widget, update_bone. keeps. Qed.

(** Reading a role is safe where the flag that guards it is set. *)
Lemma role_safe_bones_ctrl self :
  make_control self = true →
  role_safe (λ s : RigState, registered self (bones s)) bones_ctrl
            (λ _ s', registered self (bones s')).
Proof.
  intros Hmc s Hs. unfold bones_ctrl, get_state, mbind, M_bind. cbn.
  destruct (proj1 Hs Hmc) as [c Hc]. rewrite Hc. exact Hs.
Qed.

Lemma role_safe_bones_deform self :
  make_deform self = true →
  role_safe (λ s : RigState, registered self (bones s)) bones_deform
            (λ _ s', registered self (bones s')).
Proof.
  intros Hmd s Hs. unfold bones_deform, get_state, mbind, M_bind. cbn.
  destruct (proj2 Hs Hmd) as [d Hd]. rewrite Hd. exact Hs.
Qed.

(** An unguarded read of a role that was never assigned does raise. *)
Lemma bones_ctrl_unassigned (arm : gmap string Bone) o :
  bones_ctrl (initial_state arm o) = Raise (AttributeError "ctrl").
Proof. reflexivity. Qed.

Lemma bones_deform_unassigned (arm : gmap string Bone) o :
  bones_deform (initial_state arm o) = Raise (AttributeError "deform").
Proof. reflexivity. Qed.

Lemma role_safe_keeps {A} self (m : M A) :
  keeps_roles m →
  role_safe (λ s, registered self (bones s)) m
            (λ _ s', registered self (bones s')).
Proof. intros Hm. apply (Hm (registered self)). Qed.

Ltac guarded :=
  repeat first
    [ apply role_safe_when;
      let H := fresh in
      intros H; try (apply andb_true_iff in H as [H _])
    | apply role_safe_bones_ctrl; assumption
    | apply role_safe_bones_deform; assumption
    | apply role_safe_keeps;
      first [ apply keeps_roles_bones_org
            | apply keeps_roles_set_bone_parent
            | apply keeps_roles_relink_bone_parent
            | apply keeps_roles_copy_bone_properties
            | apply keeps_roles_relink_bone_constraints
            | apply keeps_roles_relink_move_constraints
            | apply keeps_roles_make_constraint
            | apply keeps_roles_create_registered_widget
            | apply keeps_roles_create_bone_widget ]
    | lazymatch goal with
      | |- role_safe _ (mbind _ _) _ =>
          eapply role_safe_bind; [|intros; cbv beta]
      end ].

Lemma parent_bones_safe self :
  role_safe (λ s : RigState, registered self (bones s)) (parent_bones self)
            (λ _ s', registered self (bones s')).
Proof.
  unfold parent_bones. guarded.
Qed.

Lemma configure_bones_safe self :
  role_safe (λ s : RigState, registered self (bones s)) (configure_bones self)
            (λ _ s', registered self (bones s')).
Proof. unfold configure_bones. guarded. Qed.

Lemma rig_bones_safe self :
  role_safe (λ s : RigState, registered self (bones s)) (rig_bones self)
            (λ _ s', registered self (bones s')).
Proof. unfold rig_bones. guarded. Qed.

Lemma generate_widgets_safe self :
  role_safe (λ s : RigState, registered self (bones s)) (generate_widgets self)
            (λ _ s', registered self (bones s')).
Proof. unfold generate_widgets. guarded. destruct (make_widget self); guarded. Qed.

(** The generation stage assigns every role the flags ask for, whatever
    state it starts from. *)
Lemma generate_bones_safe self :
  role_safe (λ _ : RigState, True) (generate_bones self)
            (λ _ s', registered self (bones s')).
Proof.
  intros s _. unfold registered.
  destruct (make_control self) eqn:Hmc, (make_deform self) eqn:Hmd;
    unfold_ops; rewrite ?Hmc, ?Hmd; cbn -[lookup insert];
    repeat (case_match; simplify_eq; cbn -[lookup insert] in *);
    try done; split; intros; by eauto.
Qed.

Lemma role_safe_post {A} (P : RigState → Prop) (Q Q' : A → RigState → Prop)
    (m : M A) :
  role_safe P m Q → (∀ a s, Q a s → Q' a s) → role_safe P m Q'.
Proof.
  intros Hm HQ s Hs. specialize (Hm s Hs).
  destruct (m s) as [[a s']|[]]; [|done..]. by apply HQ.
Qed.

Lemma role_safe_pre {A} (P P' : RigState → Prop) (Q : A → RigState → Prop)
    (m : M A) :
  role_safe P m Q → (∀ s, P' s → P s) → role_safe P' m Q.
Proof. intros Hm HP s Hs. apply Hm, HP, Hs. Qed.

Lemma generate_safe p :
  role_safe (λ _ : RigState, True) (generate p) (λ _ _, True).
Proof.
  unfold generate.
  eapply role_safe_bind with (R := λ _ _, True); [intros s _; exact I|].
  intros self.
  eapply role_safe_bind; [apply generate_bones_safe|]. intros ?.
  eapply role_safe_post with (Q := λ _ s', registered self (bones s'));
    [|intros; exact I].
  eapply role_safe_bind; [apply parent_bones_safe|]. intros ?.
  eapply role_safe_bind; [apply configure_bones_safe|]. intros ?.
  eapply role_safe_bind; [apply rig_bones_safe|]. intros ?.
  apply generate_widgets_safe.
Qed.

(** C10.  Every stage, run from a state in which the roles the flags ask for
    are assigned, reads no unassigned role and leaves them assigned; the
    generation stage assigns them from any state; hence a whole run never
    raises [AttributeError], for any parameters and any state it starts
    from. *)
Theorem roles_read_under_guard :
  (∀ st self,
     role_safe (λ s : RigState, registered self (bones s)) (run_stage st self)
               (λ _ s', registered self (bones s'))) ∧
  (∀ self,
     role_safe (λ _ : RigState, True) (generate_bones self)
               (λ _ s', registered self (bones s'))) ∧
  (∀ p (s : RigState) role, generate p s ≠ Raise (AttributeError role)).
Proof.
  split; [|split].
  - intros [] self; cbn.
    + eapply role_safe_pre; [apply generate_bones_safe|done].
    + apply parent_bones_safe.
    + apply configure_bones_safe.
    + apply rig_bones_safe.
    + apply generate_widgets_safe.
  - apply generate_bones_safe.
  - intros p s role Heq. pose proof (generate_safe p s I) as Hs.
    by rewrite Heq in Hs.
Qed.

(** ** What each stage may change *)

#[local] Instance same_but_parent_preorder : PreOrder (same_but_parent : Bone → Bone → Prop).
Proof.
  split; [by intros x|].
  intros x y z (?&?&?&?&?) (?&?&?&?&?). repeat split; congruence.
Qed.

#[local] Instance same_but_properties_preorder : PreOrder (same_but_properties : Bone → Bone → Prop).
Proof.
  split; [by intros x|].
  intros x y z (?&?&?&?&?&?) (?&?&?&?&?&?). repeat split; congruence.
Qed.

#[local] Instance same_but_constraints_preorder : PreOrder (same_but_constraints : Bone → Bone → Prop).
Proof.
  split; [by intros x|].
  intros x y z (?&?&?&?&?&?) (?&?&?&?&?&?). repeat split; congruence.
Qed.

#[local] Instance same_but_custom_shape_preorder : PreOrder (same_but_custom_shape : Bone → Bone → Prop).
Proof.
  split; [by intros x|].
  intros x y z (?&?&?&?&?&?) (?&?&?&?&?&?). repeat split; congruence.
Qed.

Section touches.

Context (R : Bone → Bone → Prop) `{!PreOrder R}.

Lemma touches_only_pure {A} (m : M A) :
  (∀ s a s', m s = Ok (a, s') → s' = s) → touches_only R m.
Proof.
  intros Hm s a s' ->%Hm. do 2 (split; [done|]). intros b x Hb. by exists x.
Qed.

Lemma touches_only_bind {A B} (m : M A) (f : A → M B) :
  touches_only R m → (∀ a, touches_only R (f a)) →
  touches_only R (m ≫= f).
Proof.
  intros Hm Hf s b s''. unfold mbind, M_bind.
  destruct (m s) as [[a s']|e] eqn:Hms; [|done]. intros Hfs.
  destruct (Hm _ _ _ Hms) as (Hb1 & Hd1 & Ha1).
  destruct (Hf _ _ _ _ Hfs) as (Hb2 & Hd2 & Ha2).
  split; [congruence|]. split; [congruence|].
  intros k x Hk. destruct (Ha1 _ _ Hk) as (y & Hy & Hxy).
  destruct (Ha2 _ _ Hy) as (z & Hz & Hyz).
  exists z. split; [done|]. by transitivity y.
Qed.

Lemma touches_only_when (c : bool) (body : M unit) :
  touches_only R body → touches_only R (when c body).
Proof.
  destruct c; [done|]. intros _. apply touches_only_pure.
  by intros s a s' [= _ ->].
Qed.

Lemma touches_only_log (c : Call) : touches_only R (log c : M unit).
Proof.
  intros s a s' [= _ <-]. cbn. do 2 (split; [done|]). intros b x Hb. by exists x.
Qed.

Lemma touches_only_raise {A} (e : Exn) : touches_only R (raise e : M A).
Proof. by intros s a s'. Qed.

Lemma touches_only_bones_org : touches_only R (bones_org : M string).
Proof. apply touches_only_pure. by intros s a s' [= _ ->]. Qed.

Lemma touches_only_bones_ctrl : touches_only R (bones_ctrl : M string).
Proof.
  apply touches_only_pure. intros s a s'.
  unfold bones_ctrl, get_state, mbind, M_bind. cbn.
  destruct (ctrl (bones s)); [by intros [= _ ->]|done].
Qed.

Lemma touches_only_bones_deform : touches_only R (bones_deform : M string).
Proof.
  apply touches_only_pure. intros s a s'.
  unfold bones_deform, get_state, mbind, M_bind. cbn.
  destruct (deform (bones s)); [by intros [= _ ->]|done].
Qed.

Lemma touches_only_get_bone b : touches_only R (get_bone b : M Bone).
Proof.
  apply touches_only_pure. intros s a s'.
  unfold get_bone, get_state, mbind, M_bind. cbn.
  destruct (armature s !! b); [by intros [= _ ->]|done].
Qed.

Lemma touches_only_update_bone b (f : Bone → Bone) :
  (∀ x, R x (f x)) → touches_only R (update_bone b f).
Proof.
  intros Hf s a s'. unfold update_bone, get_bone, get_state, put_armature,
    mbind, M_bind. cbn.
  destruct (armature s !! b) as [bone|] eqn:Hb; [|done].
  intros [= _ <-]. cbn. split; [done|].
  split; [apply dom_insert_lookup_L; eauto|].
  intros k x Hk. destruct (decide (b = k)) as [->|Hne].
  - rewrite lookup_insert_eq. exists (f bone). split; [done|].
    rewrite Hb in Hk. injection Hk as ->. apply Hf.
  - rewrite lookup_insert_ne by done. by exists x.
Qed.

End touches.

Ltac touches :=
  repeat first
    [ apply _
    | apply touches_only_when
    | apply touches_only_log
    | apply touches_only_raise
    | apply touches_only_bones_org
    | apply touches_only_bones_ctrl
    | apply touches_only_bones_deform
    | apply touches_only_get_bone
    | apply touches_only_update_bone;
      first [apply _ | intros ?; by repeat split]
    | lazymatch goal with
      | |- touches_only _ (mbind _ _) => apply touches_only_bind; intros
      | |- touches_only _ (if _ then _ else _) => case_match
      | |- touches_only _ (mret _) =>
          apply touches_only_pure; first [apply _ | by intros ??? [= _ ->]]
      end ].

(** X1.  Whenever it returns, each stage after the generation stage has
    assigned no role of [self.bones] and has added or removed no bone; the
    parenting stage has changed nothing but parents and connected flags,
    the configuration stage nothing but properties, the rig stage nothing
    but constraint stacks and the widget stage nothing but widgets.  This
    holds from every state. *)
Theorem stages_touch_only_their_own :
  (∀ self, touches_only same_but_parent (parent_bones self : M unit)) ∧
  (∀ self, touches_only same_but_properties (configure_bones self : M unit)) ∧
  (∀ self, touches_only same_but_constraints (rig_bones self : M unit)) ∧
  (∀ self, touches_only same_but_custom_shape (generate_widgets self : M unit)).
Proof.
  split; [|split; [|split]]; intros self.
  - unfold parent_bones, set_bone_parent, relink_bone_parent. touches.
  - unfold configure_bones, copy_bone_properties. touches.
  - unfold rig_bones, relink_bone_constraints, relink_move_constraints,
      make_constraint. touches.
  - unfold generate_widgets, create_registered_widget, create_bone_widget.
    touches.
Qed.

(** X2.  An empty widget type is the declared default: a run with the
    widget type emptied is the same run as with the widget type
    [add_parameters] declares, for all flags and from every state. *)
Theorem empty_widget_type_is_default mc mw md (s : RigState) :
  generate (Params.mk mc mw "" md) s =
  generate
    (Params.mk mc mw (Params.super_copy_widget_type Params.default) md) s.
Proof. destruct mc, mw, md; reflexivity. Qed.

(** X3.  Parameters the interface disables have no effect: with
    [make_control] off a run depends neither on [make_widget] nor on the
    widget type, and with [make_widget] off it does not depend on the
    widget type. *)
Theorem disabled_parameters_are_ignored :
  (∀ mw mw' wt wt' md (s : RigState),
     generate (Params.mk false mw wt md) s =
     generate (Params.mk false mw' wt' md) s) ∧
  (∀ mc wt wt' md (s : RigState),
     generate (Params.mk mc false wt md) s =
     generate (Params.mk mc false wt' md) s).
Proof.
  split.
  - intros mw mw' wt wt' md s. destruct md; reflexivity.
  - intros mc wt wt' md s. destruct mc, md; reflexivity.
Qed.

(** X17.  What cannot be operated in the interface has no effect on a run:
    if the editor of an attribute is not operable for [p], any [q] that
    differs from [p] in that attribute only gives the same run, from every
    state. *)
Theorem inoperable_parameters_are_ignored
    (p q : Params.t) (relink_constraints : bool) (attr : string)
    (s : RigState) :
  UI.operable (parameters_ui 0 p relink_constraints UI.fresh)
    (editor_of attr) = false →
  agree_except attr p q →
  generate p s = generate q s.
Proof.
  destruct p as [mc mw wt md], q as [mc' mw' wt' md'].
  unfold agree_except. cbn. intros Hop (H1 & H2 & H3 & H4).
  destruct (decide (attr = "make_control")) as [->|?];
    [destruct relink_constraints, mc, mw, md; vm_compute in Hop; discriminate|].
  destruct (decide (attr = "make_deform")) as [->|?];
    [destruct relink_constraints, mc, mw, md; vm_compute in Hop; discriminate|].
  destruct H1 as [?|<-]; [done|]. destruct H4 as [?|<-]; [done|].
  destruct (decide (attr = "make_widget")) as [->|?].
  - destruct H3 as [[=]|<-].
    destruct relink_constraints, mc, mw, md; vm_compute in Hop;
      try discriminate; destruct mw'; reflexivity.
  - destruct H2 as [?|<-]; [done|].
    destruct (decide (attr = "super_copy_widget_type")) as [->|?].
    + destruct relink_constraints, mc, mw, md; vm_compute in Hop;
        try discriminate; reflexivity.
    + destruct H3 as [?|<-]; [done|]. reflexivity.
Qed.

(** ** The stages on an armature that holds org *)

(** The bone store never hands out a name that is taken. *)
Hypothesis unique_name_fresh :
  ∀ (m : gmap string Bone) (n : string), m !! unique_name m n = None.

Ltac name_fresh :=
  match goal with
  | |- context [unique_name ?m ?n] =>
      lazymatch m with context [unique_name] => fail | _ => idtac end;
      let H := fresh "Hfresh" in
      pose proof (unique_name_fresh m n) as H;
      let x := fresh "nm" in
      set (x := unique_name m n) in *;
      repeat match goal with
      | H : <[_ := _]> _ !! _ = None |- _ =>
          apply lookup_insert_None in H as [H ?]
      end
  end.

Ltac look :=
  match goal with
  | |- context [ (<[?k := ?v]> ?m) !! ?k ] => rewrite (lookup_insert_eq m k v)
  | |- context [ (<[?k := ?v]> ?m) !! ?j ] =>
      rewrite (lookup_insert_ne m k j v) by congruence
  | H : ?m !! ?k = _ |- context [ ?m !! ?k ] => rewrite H
  end.

Ltac exec :=
  unfold_ops; repeat (cbn -[lookup insert]; first [name_fresh | look]).

Ltac split_truthy :=
  match goal with
  | |- context [truthy ?r] => let H := fresh "Hr" in destruct (truthy r) eqn:H
  end.
Ltac found :=
  eexists; split; [repeat look; reflexivity | cbn; auto].

(** C7.  For every combination of the flags, the generation stage creates
    exactly the bones it registers: [ctrl] iff [make_control], [deform] iff
    [make_deform], two distinct new bones, every bone of the armature left as
    it was.  The control is a copy of org asked to be named by the stripped
    org name, with the parent of org and no bendy-bone segmentation; the
    deform bone is a copy of org asked to be named by the deformer name of
    the stripped org name, with bendy-bone segmentation.  The name a bone
    ends up with is the one the bone store grants for the name asked. *)
Theorem generate_bones_creates (arm : gmap string Bone) o b0 p :
  arm !! o = Some b0 →
  ∃ s',
    through_generate p (initial_state arm o) = Ok (tt, s') ∧
    created arm s' = derived (bones s') ∧
    (∀ b, b ∈ dom arm → armature s' !! b = arm !! b) ∧
    (is_Some (ctrl (bones s')) ↔ Params.make_control p = true) ∧
    (is_Some (deform (bones s')) ↔ Params.make_deform p = true) ∧
    trace s' =
      (if Params.make_control p
       then [CopyBone o (strip_org o) true false] else []) ++
      (if Params.make_deform p
       then [CopyBone o (make_deformer_name (strip_org o)) false true] else []) ∧
    (∀ c, ctrl (bones s') = Some c →
       c = unique_name arm (strip_org o) ∧ deform (bones s') ≠ Some c ∧
       ∃ bc, armature s' !! c = Some bc ∧
             geometry bc = geometry b0 ∧ parent bc = parent b0 ∧
             bbone bc = false ∧ constraints bc = []) ∧
    (∀ d, deform (bones s') = Some d →
       (∃ m, d = unique_name m (make_deformer_name (strip_org o))) ∧
       ∃ bd, armature s' !! d = Some bd ∧
             geometry bd = geometry b0 ∧ bbone bd = true ∧
             constraints bd = []).
Proof.
  intros Ho. destruct p as [mc mw wt md].
  assert (Hdo : o ∈ dom arm) by (apply elem_of_dom; eauto).
  destruct mc, md; exec; eexists; (split; [reflexivity|]);
    unfold created, derived; cbn -[lookup insert];
    rewrite ?dom_insert_L;
    (split; [repeat match goal with
                    | H : _ !! _ = None |- _ => apply not_elem_of_dom in H
                    end;
             apply set_eq; intros k;
             rewrite !elem_of_difference, ?elem_of_union,
               ?elem_of_singleton, ?elem_of_empty;
             intuition (subst; tauto)|]);
    (split; [intros b Hb; apply elem_of_dom in Hb as [? Hb];
             repeat (rewrite lookup_insert_ne by congruence); done|]);
    (split; [split; [try done; intros [? [=]] | eauto; done]|]);
    (split; [split; [try done; intros [? [=]] | eauto; done]|]);
    (split; [reflexivity|]);
    (split; [intros ? [= <-] |intros ? [= <-]]).
  all: repeat split; eauto; try congruence; try found.
Qed.

(** C6.  If [make_deform] is set then after the parenting stage the parent of
    the deform bone is org and its connected flag is off, whatever
    [make_control] is and whatever the relink rules answer. *)
Theorem deform_parent_is_org (arm : gmap string Bone) o b0 p :
  arm !! o = Some b0 →
  Params.make_deform p = true →
  ∃ s' d,
    through_parent p (initial_state arm o) = Ok (tt, s') ∧
    deform (bones s') = Some d ∧
    ∃ bd, armature s' !! d = Some bd ∧
    parent bd = Some o ∧ use_connect bd = false.
Proof.
  intros Ho Hmd. destruct p as [mc mw wt md]. cbn in Hmd. subst md.
  destruct mc; exec; try split_truthy; exec;
    do 2 eexists; (split; [reflexivity|]); cbn -[lookup insert];
    (split; [reflexivity|]); found.
Qed.

(** C5.  If [make_control] is set and the relink step returns a non-empty
    bone name [P] for org, then after the parenting stage org and the control
    bone both have parent [P]. *)
Theorem control_shares_relinked_parent (arm : gmap string Bone) o b0 p P :
  arm !! o = Some b0 →
  Params.make_control p = true →
  relink_parent o (parent b0) = Some P →
  P ≠ "" →
  ∃ s' c,
    through_parent p (initial_state arm o) = Ok (tt, s') ∧
    ctrl (bones s') = Some c ∧
    c ≠ o ∧
    bone_parent s' o = Some (Some P) ∧
    bone_parent s' c = Some (Some P).
Proof.
  intros Ho Hmc Hrel HP. destruct p as [mc mw wt md]. cbn in Hmc. subst mc.
  apply String.eqb_neq in HP.
  destruct md; exec; rewrite ?Hrel; cbn -[lookup insert]; rewrite ?HP; exec;
    do 2 eexists; (split; [reflexivity|]); cbn -[lookup insert];
    (split; [reflexivity|]); (split; [congruence|]);
    unfold bone_parent; cbn -[lookup insert]; repeat look; done.
Qed.

(** C9.  If [make_control] is set and the relink step returns an empty or
    none result, the parenting stage makes no [set_bone_parent] call on the
    control bone: the control keeps the parent it copied from org when it was
    created, while org itself is left a root. *)
Theorem control_keeps_inherited_parent (arm : gmap string Bone) o b0 p :
  arm !! o = Some b0 →
  Params.make_control p = true →
  truthy (relink_parent o (parent b0)) = false →
  ∃ s' c,
    through_parent p (initial_state arm o) = Ok (tt, s') ∧
    ctrl (bones s') = Some c ∧
    Forall (λ call, sets_parent_of c call = false) (trace s') ∧
    bone_parent s' c = Some (parent b0) ∧
    bone_parent s' o = Some None.
Proof.
  intros Ho Hmc Hrel. destruct p as [mc mw wt md]. cbn in Hmc. subst mc.
  destruct md; exec; rewrite ?Hrel; exec;
    do 2 eexists; (split; [reflexivity|]); cbn -[lookup insert];
    (split; [reflexivity|]);
    (split; [repeat constructor; cbn; try apply String.eqb_neq; congruence|]);
    unfold bone_parent; cbn -[lookup insert]; repeat look; done.
Qed.

(** ** The widget stage *)

(** C8.  No stage before the widget stage makes a widget call.  When
    [make_control] is unset the widget stage changes nothing at all; when it
    is set the stage makes exactly one call, for the control bone: the
    default bone widget if [make_widget] is unset, and otherwise a
    registered widget keyed by the widget type, with ["circle"] in place of
    an empty type.  That last call returns when the catalog holds the key;
    when it does not, the run ends there with [MetarigError] for that very
    key. *)
Theorem widget_only_for_control (arm : gmap string Bone) o b0 p :
  arm !! o = Some b0 →
  ∃ s4,
    through_rig p (initial_state arm o) = Ok (tt, s4) ∧
    Forall (λ call, is_widget_call call = false) (trace s4) ∧
    (Params.make_control p = false →
     generate p (initial_state arm o) = Ok (tt, s4)) ∧
    (Params.make_control p = true →
     ∃ c, ctrl (bones s4) = Some c ∧
       (Params.make_widget p = false →
        ∃ s5, generate p (initial_state arm o) = Ok (tt, s5) ∧
              trace s5 = trace s4 ++ [CreateBoneWidget c]) ∧
       (Params.make_widget p = true →
        let key := if decide (Params.super_copy_widget_type p = "")
                   then "circle" else Params.super_copy_widget_type p in
        (registered_widget key = true →
         ∃ s5, generate p (initial_state arm o) = Ok (tt, s5) ∧
               trace s5 = trace s4 ++ [CreateRegisteredWidget c key]) ∧
        (registered_widget key = false →
         generate p (initial_state arm o) = Raise (MetarigError key)))).
Proof.
  intros Ho. destruct p as [mc mw wt md].
  assert (Hwt : str_or wt "circle" = if decide (wt = "") then "circle" else wt).
  { unfold str_or. destruct (String.eqb_spec wt ""); by case_decide. }
  destruct mc, md, mw; exec; try split_truthy; exec;
    eexists; (split; [reflexivity|]); cbn -[lookup insert decide];
    (split; [repeat constructor|]); (split; [done|]).
  all: intros Hmc; try discriminate Hmc.
  all: eexists; (split; [reflexivity|]).
  all: split; intros Hmw; try discriminate Hmw.
  all: try (eexists; split; reflexivity).
  all: rewrite <- Hwt; split; intros Hreg; rewrite Hreg; exec;
    [eexists; split; reflexivity | reflexivity].
Qed.

(** ** Whole runs *)

(** Use the premise on the widget catalog where the flags call for it. *)
Ltac available H :=
  unfold widget_available in H; cbn -[lookup insert] in H;
  first [specialize (H eq_refl eq_refl) | clear H].

(** X4.  The generation stage never overwrites a bone: from every state,
    when it returns, every bone the armature held is still there,
    unchanged, and the role [org] is the same. *)
Theorem generate_bones_keeps_existing self (s s' : RigState) :
  generate_bones self s = Ok (tt, s') →
  org (bones s') = org (bones s) ∧
  ∀ b x, armature s !! b = Some x → armature s' !! b = Some x.
Proof.
  destruct s as [arm bs tr].
  destruct (make_control self) eqn:Hmc, (make_deform self) eqn:Hmd;
    unfold_ops; rewrite ?Hmc, ?Hmd; cbn -[lookup insert];
    destruct (arm !! org bs) as [b0|] eqn:Ho; cbn -[lookup insert];
    try done; repeat (first [name_fresh | look]; cbn -[lookup insert]);
    intros [= <-]; cbn -[lookup insert]; (split; [done|]);
    intros b x Hb; repeat look; done.
Qed.

(** X5.  A whole run from a clean slate, with the widget it asks for
    registered, returns, leaves every other bone of the armature exactly
    as it was, and the bones it has added are exactly the ones registered
    under [ctrl] and [deform]. *)
Theorem run_touches_only_its_bones (arm : gmap string Bone) o b0 p :
  arm !! o = Some b0 →
  widget_available p →
  ∃ s',
    generate p (initial_state arm o) = Ok (tt, s') ∧
    org (bones s') = o ∧
    created arm s' = derived (bones s') ∧
    ∀ b, b ≠ o → b ∈ dom arm → armature s' !! b = arm !! b.
Proof.
  intros Ho Hav. destruct p as [mc mw wt md].
  assert (Hdo : o ∈ dom arm) by (apply elem_of_dom; eauto).
  destruct mc, md, mw; available Hav; exec; try split_truthy; exec;
    rewrite ?Hav; exec;
    eexists; (split; [reflexivity|]); (split; [reflexivity|]);
    unfold created, derived; cbn -[lookup insert];
    (split;
     [rewrite !dom_insert_L;
      repeat match goal with
             | H : _ !! _ = None |- _ => apply not_elem_of_dom in H
             end;
      apply set_eq; intros k;
      rewrite !elem_of_difference, ?elem_of_union, ?elem_of_singleton,
        ?elem_of_empty;
      intuition (subst; tauto)
     |intros b Hbo [x Hb]%elem_of_dom; repeat look; done]).
Qed.

(** X6.  A run whose widget type is registered returns, and at its end
    the control bone carries the properties of org, verbatim; org keeps
    its own and the deform bone keeps the properties it was created
    with. *)
Theorem control_copies_org_properties (arm : gmap string Bone) o b0 p :
  arm !! o = Some b0 →
  widget_available p →
  ∃ s',
    generate p (initial_state arm o) = Ok (tt, s') ∧
    properties <$> armature s' !! o = Some (properties b0) ∧
    (∀ c, ctrl (bones s') = Some c →
       properties <$> armature s' !! c = Some (properties b0)) ∧
    (∀ d, deform (bones s') = Some d →
       properties <$> armature s' !! d = Some default_properties).
Proof.
  intros Ho Hav. destruct p as [mc mw wt md].
  destruct mc, md, mw; available Hav; exec; try split_truthy; exec;
    rewrite ?Hav; exec;
    eexists; (split; [reflexivity|]); cbn -[lookup insert];
    (split; [repeat look; done|]);
    (split; intros ? [= <-]; repeat look; done).
Qed.

(** X7.  The hierarchy a whole run leaves when its widget type is
    registered: org has the parent the relink step resolved, or none; the
    control bone has that same parent when it is not empty and the
    original parent of org otherwise; the deform bone is a child of org,
    not connected.  No later stage undoes what the parenting stage did. *)
Theorem hierarchy_after_run (arm : gmap string Bone) o b0 p :
  arm !! o = Some b0 →
  widget_available p →
  let r := relink_parent o (parent b0) in
  ∃ s',
    generate p (initial_state arm o) = Ok (tt, s') ∧
    bone_parent s' o = Some (if truthy r then r else None) ∧
    (∀ c, ctrl (bones s') = Some c →
       bone_parent s' c = Some (if truthy r then r else parent b0)) ∧
    (∀ d, deform (bones s') = Some d →
       bone_parent s' d = Some (Some o) ∧
       use_connect <$> armature s' !! d = Some false).
Proof.
  intros Ho Hav r. subst r. destruct p as [mc mw wt md].
  destruct mc, md, mw; available Hav; exec; split_truthy; exec;
    rewrite ?Hav; exec;
    eexists; (split; [reflexivity|]); unfold bone_parent;
    cbn -[lookup insert];
    (split; [repeat look; done|]);
    (split; intros ? [= <-]; repeat look; done).
Qed.

(** X9.  With both [make_control] and [make_deform] off a run creates no
    bone and makes no widget: it only relinks the parent of org and
    rewrites the targets of its constraints, in that order. *)
Theorem run_without_derived_bones (arm : gmap string Bone) o b0 p :
  arm !! o = Some b0 →
  Params.make_control p = false →
  Params.make_deform p = false →
  ∃ s',
    generate p (initial_state arm o) = Ok (tt, s') ∧
    bones s' = mkBoneSet o None None ∧
    trace s' = [RelinkBoneParent o; RelinkBoneConstraints o] ∧
    armature s' =
      <[o := with_constraints (relink_constraint <$> constraints b0)
               (with_parent
                  (if truthy (relink_parent o (parent b0))
                   then relink_parent o (parent b0) else None) None b0)]> arm.
Proof.
  intros Ho Hmc Hmd. destruct p as [mc mw wt md]. cbn in Hmc, Hmd.
  subst mc md. exec. eexists. split; [reflexivity|]. cbn -[lookup insert].
  do 2 (split; [reflexivity|]). by rewrite insert_insert_eq.
Qed.

(** X10.  The calls a whole run makes, in order, when its widget type is
    registered (so that the last call returns): the copies, the parenting
    of the deform bone, the relink of the parent of org, the parenting of
    the control bone (only for a non-empty relink result), the copy of the
    properties, the relink of the constraints of org, the move of the
    [CTRL:] constraints and the copy-transforms constraint, the move of the
    [DEF:] constraints, and the widget. *)
Theorem calls_of_a_run (arm : gmap string Bone) o b0 p :
  arm !! o = Some b0 →
  widget_available p →
  let r := relink_parent o (parent b0) in
  ∃ s',
    generate p (initial_state arm o) = Ok (tt, s') ∧
    (is_Some (ctrl (bones s')) ↔ Params.make_control p = true) ∧
    (is_Some (deform (bones s')) ↔ Params.make_deform p = true) ∧
    trace s' =
      from_option (λ c, [CopyBone o (strip_org o) true false]) []
        (ctrl (bones s')) ++
      from_option
        (λ d, [CopyBone o (make_deformer_name (strip_org o)) false true;
               SetBoneParent d (Some o) (Some false)]) []
        (deform (bones s')) ++
      [RelinkBoneParent o] ++
      from_option
        (λ c, (if truthy r then [SetBoneParent c r None] else []) ++
              [CopyBoneProperties o c]) []
        (ctrl (bones s')) ++
      [RelinkBoneConstraints o] ++
      from_option
        (λ c, [RelinkMoveConstraints o c "CTRL:";
               MakeConstraint o "COPY_TRANSFORMS" c (Some 0)]) []
        (ctrl (bones s')) ++
      from_option (λ d, [RelinkMoveConstraints o d "DEF:"]) []
        (deform (bones s')) ++
      from_option
        (λ c, [if Params.make_widget p
               then CreateRegisteredWidget c
                      (str_or (Params.super_copy_widget_type p) "circle")
               else CreateBoneWidget c]) []
        (ctrl (bones s')).
Proof.
  intros Ho Hav r. subst r. destruct p as [mc mw wt md].
  destruct mc, md, mw; available Hav; exec; split_truthy; exec;
    rewrite ?Hav; exec;
    eexists; (split; [reflexivity|]); cbn -[lookup insert];
    (split; [split; [try done; intros [? [=]] | eauto; done]|]);
    (split; [split; [try done; intros [? [=]] | eauto; done]|]);
    reflexivity.
Qed.

(** The name of a new copy-transforms constraint carries no routing
    prefix. *)
Hypothesis default_name_plain :
  startswith (default_name "COPY_TRANSFORMS") "CTRL:" = false ∧
  startswith (default_name "COPY_TRANSFORMS") "DEF:" = false.

(** ** The state after the rig stage *)

Lemma through_rig_run (arm : gmap string Bone) o b0 p :
  arm !! o = Some b0 →
  ∃ s',
    through_rig p (initial_state arm o) = Ok (tt, s') ∧
    (is_Some (ctrl (bones s')) ↔ Params.make_control p = true) ∧
    (is_Some (deform (bones s')) ↔ Params.make_deform p = true) ∧
    bone_stack s' o =
      Some (from_option (λ c, [copy_transforms_to c]) [] (ctrl (bones s')) ++
            remaining (Params.make_control p) (Params.make_deform p)
              (constraints b0)) ∧
    (∀ c, ctrl (bones s') = Some c →
       bone_stack s' c = Some (relocated "CTRL:" (constraints b0))) ∧
    (∀ d, deform (bones s') = Some d →
       bone_stack s' d = Some (relocated "DEF:" (constraints b0))) ∧
    filter (λ call, is_make_constraint call = true) (trace s') =
      from_option (λ c, [MakeConstraint o "COPY_TRANSFORMS" c (Some 0)]) []
        (ctrl (bones s')).
Proof.
  intros Ho. destruct p as [mc mw wt md].
  destruct default_name_plain as [_ Hdef].
  destruct mc, md; exec; try split_truthy; exec;
    eexists; (split; [reflexivity|]); cbn -[lookup insert];
    (split; [split; [try done; intros [? [=]] | eauto; done]|]);
    (split; [split; [try done; intros [? [=]] | eauto; done]|]);
    unfold bone_stack; cbn -[lookup insert].
  all: rewrite ?take_0, ?drop_0, ?app_nil_l.
  all: rewrite ?(filter_cons_True (λ c, has_prefix "DEF:" c = false))
         by exact Hdef.
  all: rewrite ?(filter_cons_False (λ c, has_prefix "DEF:" c = true))
         by (intros Hx;
             change (startswith (default_name "COPY_TRANSFORMS") "DEF:" = true) in Hx;
             congruence).
  all: rewrite ?remaining_both, ?remaining_ctrl, ?remaining_def, ?remaining_none.
  all: split; [repeat look; done|].
  all: split; [intros ? [= <-]; repeat look; cbn;
               by rewrite ?relocated_eq|].
  all: split; [intros ? [= <-]; repeat look; cbn;
               rewrite ?list_filter_filter_l by apply def_prefix_not_ctrl;
               by rewrite relocated_eq|].
  all: reflexivity.
Qed.

Lemma remaining_stays mc md (cs : list Constraint) x :
  x ∈ remaining mc md cs →
  (mc = true → has_prefix "CTRL:" x = false) ∧
  (md = true → has_prefix "DEF:" x = false).
Proof.
  unfold remaining. intros (y & -> & Hy)%list_elem_of_fmap.
  apply list_elem_of_filter in Hy as [Hy _]. unfold stays in Hy.
  rewrite !has_prefix_relink.
  destruct mc, md, (has_prefix "CTRL:" y), (has_prefix "DEF:" y); done.
Qed.

Lemma relocated_elem prefix (cs : list Constraint) x :
  x ∈ cs → has_prefix prefix x = true →
  moved_constraint prefix (relink_constraint x) ∈ relocated prefix cs.
Proof.
  intros Hx Hp. unfold relocated. do 2 apply list_elem_of_fmap_2.
  by apply list_elem_of_filter.
Qed.

(** C1.  For every initial constraint stack of org: after the rig stage a
    copy-transforms constraint targeting the control bone, made by
    [make_constraint] with insert index 0, sits at index 0 of the stack of org
    if and only if [make_control] is set; the stack is that one constraint
    (when made) followed by what remains of the initial stack, and exactly
    one [make_constraint] call is made when [make_control] is set and none
    otherwise. *)
Theorem copy_transforms_iff_control (arm : gmap string Bone) o b0 p :
  arm !! o = Some b0 →
  ∃ s' stack,
    through_rig p (initial_state arm o) = Ok (tt, s') ∧
    bone_stack s' o = Some stack ∧
    ((∃ c, ctrl (bones s') = Some c ∧
           stack !! 0 = Some (copy_transforms_to c) ∧
           MakeConstraint o "COPY_TRANSFORMS" c (Some 0) ∈ trace s')
     ↔ Params.make_control p = true) ∧
    stack =
      (if Params.make_control p
       then from_option (λ c, [copy_transforms_to c]) [] (ctrl (bones s'))
       else []) ++
      remaining (Params.make_control p) (Params.make_deform p) (constraints b0) ∧
    length (filter (λ call, is_make_constraint call = true) (trace s')) =
      (if Params.make_control p then 1 else 0).
Proof.
  intros Ho.
  destruct (through_rig_run arm o b0 p Ho)
    as (s' & Hrun & Hc & _ & Ho' & _ & _ & Htr).
  exists s'. eexists. split; [exact Hrun|]. split; [exact Ho'|].
  destruct (Params.make_control p).
  - destruct Hc as [_ [c Hc]]; [done|]. rewrite Hc in *. cbn in *.
    split; [|by rewrite Htr].
    split; [done|]. intros _. exists c. do 2 (split; [done|]).
    apply (list_elem_of_filter (λ call, is_make_constraint call = true)).
    rewrite Htr. apply list_elem_of_here.
  - destruct (ctrl (bones s')) as [c|] eqn:Hc'.
    { destruct Hc as [Hc _]. discriminate Hc. eauto. }
    cbn in *. split; [|by rewrite Htr].
    split; [|done]. by intros (c & [=] & _).
Qed.

(** C2.  If [make_control] is set then after the rig stage no constraint on
    org carries the prefix [CTRL:], and the stack of the control bone, empty
    when the bone was created, is exactly the [CTRL:] constraints of the
    initial stack of org in their relative order. *)
Theorem ctrl_constraints_move (arm : gmap string Bone) o b0 p :
  arm !! o = Some b0 →
  Params.make_control p = true →
  ∃ s' c ostack,
    through_rig p (initial_state arm o) = Ok (tt, s') ∧
    ctrl (bones s') = Some c ∧
    bone_stack s' o = Some ostack ∧
    bone_stack s' c = Some (relocated "CTRL:" (constraints b0)) ∧
    (∀ x, x ∈ ostack → has_prefix "CTRL:" x = false) ∧
    (∀ x, x ∈ constraints b0 → has_prefix "CTRL:" x = true →
       moved_constraint "CTRL:" (relink_constraint x)
         ∈ relocated "CTRL:" (constraints b0)).
Proof.
  intros Ho Hmc.
  destruct (through_rig_run arm o b0 p Ho)
    as (s' & Hrun & Hc & _ & Ho' & Hcs & _ & _).
  destruct Hc as [_ [c Hc]]; [done|].
  exists s', c. eexists.
  split; [exact Hrun|]. split; [exact Hc|]. split; [exact Ho'|].
  split; [by apply Hcs|]. split.
  - rewrite Hc, Hmc. cbn. intros x [->|Hx]%elem_of_cons.
    + apply default_name_plain.
    + by apply remaining_stays in Hx as [Hx _]; auto.
  - intros x. apply relocated_elem.
Qed.

(** C3.  If [make_deform] is set then after the rig stage no constraint on
    org carries the prefix [DEF:], and the stack of the deform bone is exactly
    the [DEF:] constraints of the initial stack of org in their relative
    order; this holds for both values of [make_control]. *)
Theorem def_constraints_move (arm : gmap string Bone) o b0 p :
  arm !! o = Some b0 →
  Params.make_deform p = true →
  ∃ s' d ostack,
    through_rig p (initial_state arm o) = Ok (tt, s') ∧
    deform (bones s') = Some d ∧
    bone_stack s' o = Some ostack ∧
    bone_stack s' d = Some (relocated "DEF:" (constraints b0)) ∧
    (∀ x, x ∈ ostack → has_prefix "DEF:" x = false) ∧
    (∀ x, x ∈ constraints b0 → has_prefix "DEF:" x = true →
       moved_constraint "DEF:" (relink_constraint x)
         ∈ relocated "DEF:" (constraints b0)).
Proof.
  intros Ho Hmd.
  destruct (through_rig_run arm o b0 p Ho)
    as (s' & Hrun & _ & Hd & Ho' & _ & Hds & _).
  destruct Hd as [_ [d Hd]]; [done|].
  exists s', d. eexists.
  split; [exact Hrun|]. split; [exact Hd|]. split; [exact Ho'|].
  split; [by apply Hds|]. split.
  - rewrite Hmd. intros x [Hx|Hx]%elem_of_app.
    + destruct (ctrl (bones s')); cbn in Hx.
      * apply list_elem_of_singleton in Hx as ->. apply default_name_plain.
      * by apply not_elem_of_nil in Hx.
    + by apply remaining_stays in Hx as [_ Hx]; auto.
  - intros x. apply relocated_elem.
Qed.

(** C4.  A constraint of org whose name carries neither [CTRL:] nor [DEF:]
    is on the stack of org after the rig stage, for every combination of the
    flags, with only its target rewritten; the constraints without prefix
    keep their relative order. *)
Theorem plain_constraints_stay (arm : gmap string Bone) o b0 p :
  arm !! o = Some b0 →
  ∃ s' ostack,
    through_rig p (initial_state arm o) = Ok (tt, s') ∧
    bone_stack s' o = Some ostack ∧
    (∀ x, x ∈ constraints b0 → plain x = true →
       relink_constraint x ∈ ostack) ∧
    relink_constraint <$> filter (λ c, plain c = true) (constraints b0)
      `sublist_of` ostack.
Proof.
  intros Ho.
  destruct (through_rig_run arm o b0 p Ho)
    as (s' & Hrun & _ & _ & Ho' & _ & _ & _).
  exists s'. eexists. split; [exact Hrun|]. split; [exact Ho'|].
  assert (Hsub : relink_constraint <$>
                   filter (λ c, plain c = true) (constraints b0)
                 `sublist_of`
                 from_option (λ c, [copy_transforms_to c]) [] (ctrl (bones s')) ++
                 remaining (Params.make_control p) (Params.make_deform p)
                   (constraints b0)).
  { apply sublist_inserts_l, plain_sublist_remaining. }
  split; [|exact Hsub].
  intros x Hx Hp. eapply elem_of_sublist; [|exact Hsub].
  apply list_elem_of_fmap_2. by apply list_elem_of_filter.
Qed.

(** ** Conservation of the constraints *)

Lemma ctrl_prefix_not_def (c : Constraint) :
  has_prefix "CTRL:" c = true → has_prefix "DEF:" c = false.
Proof.
  intros Hc. destruct (has_prefix "DEF:" c) eqn:Hd; [|done].
  apply def_prefix_not_ctrl in Hd. congruence.
Qed.

Lemma stacks_partition mc md (cs : list Constraint) :
  filter (λ c, stays mc md c = true) cs ++
  (if mc then filter (λ c, has_prefix "CTRL:" c = true) cs else []) ++
  (if md then filter (λ c, has_prefix "DEF:" c = true) cs else [])
  ≡ₚ cs.
Proof.
  induction cs as [|x cs IH]; [by destruct mc, md|].
  pose proof (def_prefix_not_ctrl x) as Hx.
  destruct mc, md, (has_prefix "CTRL:" x) eqn:Hc,
    (has_prefix "DEF:" x) eqn:Hd;
    try (specialize (Hx eq_refl); discriminate);
    repeat first
      [ rewrite filter_cons_True
          by (unfold stays; rewrite ?Hc, ?Hd; cbn; congruence)
      | rewrite filter_cons_False
          by (unfold stays; rewrite ?Hc, ?Hd; cbn; congruence) ];
    rewrite ?app_nil_r in *; cbn;
    rewrite <- ?Permutation_middle; by rewrite ?IH.
Qed.

Lemma payload_moved prefix (c : Constraint) :
  payload (moved_constraint prefix c) = payload c.
Proof. reflexivity. Qed.

Lemma payload_relocated prefix (cs : list Constraint) :
  payload <$> relocated prefix cs =
  payload <$> (relink_constraint <$>
                 filter (λ c, has_prefix prefix c = true) cs).
Proof.
  unfold relocated. rewrite <- list_fmap_compose. by apply list_fmap_ext.
Qed.

(** X11.  The rig stage loses and duplicates no constraint: the stacks of
    org, of the control bone and of the deform bone together hold, up to
    order and up to the names of the moved ones, exactly the constraints
    org had, targets rewritten, plus the copy-transforms constraint when a
    control bone exists. *)
Theorem constraints_are_conserved (arm : gmap string Bone) o b0 p :
  arm !! o = Some b0 →
  ∃ s' ostack,
    through_rig p (initial_state arm o) = Ok (tt, s') ∧
    bone_stack s' o = Some ostack ∧
    payload <$> (ostack ++ role_stack s' (ctrl (bones s')) ++
                 role_stack s' (deform (bones s')))
    ≡ₚ payload <$> (from_option (λ c, [copy_transforms_to c]) []
                      (ctrl (bones s')) ++
                    (relink_constraint <$> constraints b0)).
Proof.
  intros Ho.
  destruct (through_rig_run arm o b0 p Ho)
    as (s' & Hrun & Hc & Hd & Ho' & Hcs & Hds & _).
  exists s'. eexists. split; [exact Hrun|]. split; [exact Ho'|].
  assert (HC : payload <$> role_stack s' (ctrl (bones s')) =
               payload <$> (relink_constraint <$>
                 (if Params.make_control p
                  then filter (λ c, has_prefix "CTRL:" c = true) (constraints b0)
                  else []))).
  { destruct (ctrl (bones s')) as [c|] eqn:Hc'.
    - rewrite (proj1 Hc) by eauto. unfold role_stack. cbn.
      rewrite (Hcs c eq_refl). apply payload_relocated.
    - destruct (Params.make_control p); [|done].
      destruct (proj2 Hc eq_refl) as [? [=]]. }
  assert (HD : payload <$> role_stack s' (deform (bones s')) =
               payload <$> (relink_constraint <$>
                 (if Params.make_deform p
                  then filter (λ c, has_prefix "DEF:" c = true) (constraints b0)
                  else []))).
  { destruct (deform (bones s')) as [d|] eqn:Hd'.
    - rewrite (proj1 Hd) by eauto. unfold role_stack. cbn.
      rewrite (Hds d eq_refl). apply payload_relocated.
    - destruct (Params.make_deform p); [|done].
      destruct (proj2 Hd eq_refl) as [? [=]]. }
  rewrite !fmap_app, HC, HD, <- !app_assoc. apply Permutation_app_head.
  unfold remaining. rewrite <- !fmap_app.
  do 2 apply fmap_Permutation. apply stacks_partition.
Qed.

(** X12.  A routing prefix only counts when its bone is made: with
    [make_control] off every [CTRL:] constraint stays on org, and with
    [make_deform] off every [DEF:] constraint stays on org, targets
    rewritten. *)
Theorem prefixed_constraints_stay_without_their_bone
    (arm : gmap string Bone) o b0 p :
  arm !! o = Some b0 →
  ∃ s' ostack,
    through_rig p (initial_state arm o) = Ok (tt, s') ∧
    bone_stack s' o = Some ostack ∧
    (Params.make_control p = false →
     ∀ x, x ∈ constraints b0 → has_prefix "CTRL:" x = true →
          relink_constraint x ∈ ostack) ∧
    (Params.make_deform p = false →
     ∀ x, x ∈ constraints b0 → has_prefix "DEF:" x = true →
          relink_constraint x ∈ ostack).
Proof.
  intros Ho.
  destruct (through_rig_run arm o b0 p Ho)
    as (s' & Hrun & _ & _ & Ho' & _ & _ & _).
  exists s'. eexists. split; [exact Hrun|]. split; [exact Ho'|].
  split; intros Hoff x Hx Hp; rewrite Hoff; apply elem_of_app; right;
    apply list_elem_of_fmap_2, list_elem_of_filter; (split; [|done]);
    unfold stays; rewrite Hp; cbn.
  - by rewrite (ctrl_prefix_not_def x Hp), andb_false_r.
  - by rewrite (def_prefix_not_ctrl x Hp), andb_false_r.
Qed.

End Proofs.

(** * The theorems at the sample metarig *)

(** The numeric-suffix policy of the sample host never returns a taken name. *)
Lemma sample_unique_name_fresh :
  ∀ (m : gmap string (Bone Sample.Geometry Sample.Props)) (n : string),
    m !! unique_name m n = None.
Proof. intros m n. apply fresh_string_fresh. Qed.

Lemma sample_default_name_plain :
  startswith (default_name (Host := Sample.host) "COPY_TRANSFORMS") "CTRL:" = false ∧
  startswith (default_name (Host := Sample.host) "COPY_TRANSFORMS") "DEF:" = false.
Proof. split; reflexivity. Qed.

Example sample_run :
  Sample.state_of (generate Params.default (initial_state Sample.arm "ORG-Bone"))
    ≫= (λ s, bone_stack s "ORG-Bone") =
  Some [ mkConstraint "Copy Transforms" "COPY_TRANSFORMS" (Some "Bone");
         mkConstraint "Track" "DAMPED_TRACK" (Some "target") ].
Proof. vm_compute. reflexivity. Qed.

Example sample_run_control :
  Sample.state_of (generate Params.default (initial_state Sample.arm "ORG-Bone"))
    ≫= (λ s, bone_stack s "Bone") =
  Some [ mkConstraint "CTRL:Limit" "LIMIT_ROTATION" None;
         mkConstraint "CTRL:Copy" "COPY_LOCATION" (Some "target") ].
Proof. vm_compute. reflexivity. Qed.

Example sample_run_no_control :
  Sample.state_of
    (generate (Params.mk false true "" true) (initial_state Sample.arm "ORG-Bone"))
    ≫= (λ s, bone_stack s "ORG-Bone") =
  Some [ mkConstraint "CTRL:Limit" "LIMIT_ROTATION" None;
         mkConstraint "Track" "DAMPED_TRACK" (Some "target");
         mkConstraint "CTRL:Copy" "COPY_LOCATION" (Some "target") ].
Proof. vm_compute. reflexivity. Qed.

Lemma generate_bones_creates_witness :
  Sample.arm !! "ORG-Bone" = Some Sample.bone ∧
  ∃ s',
    through_generate Params.default (initial_state Sample.arm "ORG-Bone")
      = Ok (tt, s') ∧
    created Sample.arm s' = derived (bones s') ∧
    is_Some (ctrl (bones s')) ∧ is_Some (deform (bones s')).
Proof.
  split; [reflexivity|].
  destruct (generate_bones_creates sample_unique_name_fresh
              Sample.arm "ORG-Bone" Sample.bone Params.default eq_refl)
    as (s' & Hrun & Hcreated & _ & Hc & Hd & _).
  exists s'. split; [exact Hrun|]. split; [exact Hcreated|].
  split; [apply Hc|apply Hd]; reflexivity.
Defined.

Lemma deform_parent_is_org_witness :
  Sample.arm !! "ORG-Bone" = Some Sample.bone ∧
  Params.make_deform Params.default = true ∧
  ∃ s' d,
    through_parent Params.default (initial_state Sample.arm "ORG-Bone")
      = Ok (tt, s') ∧
    deform (bones s') = Some d ∧
    ∃ bd, armature s' !! d = Some bd ∧
          parent bd = Some "ORG-Bone" ∧ use_connect bd = false.
Proof.
  split; [reflexivity|]. split; [reflexivity|].
  apply (deform_parent_is_org sample_unique_name_fresh
           Sample.arm "ORG-Bone" Sample.bone Params.default);
    reflexivity.
Defined.

Lemma control_shares_relinked_parent_witness :
  Sample.arm !! "ORG-Bone" = Some Sample.bone ∧
  Params.make_control Params.default = true ∧
  relink_parent "ORG-Bone" (parent Sample.bone) = Some "root" ∧
  "root" ≠ "" ∧
  ∃ s' c,
    through_parent Params.default (initial_state Sample.arm "ORG-Bone")
      = Ok (tt, s') ∧
    ctrl (bones s') = Some c ∧
    c ≠ "ORG-Bone" ∧
    bone_parent s' "ORG-Bone" = Some (Some "root") ∧
    bone_parent s' c = Some (Some "root").
Proof.
  split; [reflexivity|]. split; [reflexivity|]. split; [reflexivity|].
  split; [discriminate|].
  apply (control_shares_relinked_parent sample_unique_name_fresh
           Sample.arm "ORG-Bone" Sample.bone Params.default "root");
    [reflexivity | reflexivity | reflexivity | discriminate].
Defined.

Lemma control_keeps_inherited_parent_witness :
  Sample.arm !! "ORG-loose" = Some Sample.loose ∧
  Params.make_control Params.default = true ∧
  truthy (relink_parent "ORG-loose" (parent Sample.loose)) = false ∧
  ∃ s' c,
    through_parent Params.default (initial_state Sample.arm "ORG-loose")
      = Ok (tt, s') ∧
    ctrl (bones s') = Some c ∧
    Forall (λ call, sets_parent_of c call = false) (trace s') ∧
    bone_parent s' c = Some (Some "ORG-spine") ∧
    bone_parent s' "ORG-loose" = Some None.
Proof.
  split; [reflexivity|]. split; [reflexivity|]. split; [reflexivity|].
  apply (control_keeps_inherited_parent sample_unique_name_fresh
           Sample.arm "ORG-loose" Sample.loose Params.default);
    reflexivity.
Defined.

Lemma copy_transforms_iff_control_witness :
  Sample.arm !! "ORG-Bone" = Some Sample.bone ∧
  ∃ s' stack,
    through_rig Params.default (initial_state Sample.arm "ORG-Bone")
      = Ok (tt, s') ∧
    bone_stack s' "ORG-Bone" = Some stack ∧
    ∃ c, ctrl (bones s') = Some c ∧
         stack !! 0 = Some (copy_transforms_to c) ∧
         MakeConstraint "ORG-Bone" "COPY_TRANSFORMS" c (Some 0) ∈ trace s'.
Proof.
  split; [reflexivity|].
  destruct (copy_transforms_iff_control sample_unique_name_fresh
              sample_default_name_plain
              Sample.arm "ORG-Bone" Sample.bone Params.default eq_refl)
    as (s' & stack & Hrun & Hstack & Hiff & _).
  exists s', stack. split; [exact Hrun|]. split; [exact Hstack|].
  apply Hiff. reflexivity.
Defined.

Lemma ctrl_constraints_move_witness :
  Sample.arm !! "ORG-Bone" = Some Sample.bone ∧
  Params.make_control Params.default = true ∧
  ∃ s' c ostack,
    through_rig Params.default (initial_state Sample.arm "ORG-Bone")
      = Ok (tt, s') ∧
    ctrl (bones s') = Some c ∧
    bone_stack s' "ORG-Bone" = Some ostack ∧
    bone_stack s' c = Some (relocated "CTRL:" (constraints Sample.bone)) ∧
    (∀ x, x ∈ ostack → has_prefix "CTRL:" x = false).
Proof.
  split; [reflexivity|]. split; [reflexivity|].
  destruct (ctrl_constraints_move sample_unique_name_fresh
              sample_default_name_plain
              Sample.arm "ORG-Bone" Sample.bone Params.default eq_refl eq_refl)
    as (s' & c & ostack & Hrun & Hc & Ho & Hcs & Habs & _).
  exists s', c, ostack. repeat split; assumption.
Defined.

Lemma def_constraints_move_witness :
  Sample.arm !! "ORG-Bone" = Some Sample.bone ∧
  Params.make_deform Params.default = true ∧
  ∃ s' d ostack,
    through_rig Params.default (initial_state Sample.arm "ORG-Bone")
      = Ok (tt, s') ∧
    deform (bones s') = Some d ∧
    bone_stack s' "ORG-Bone" = Some ostack ∧
    bone_stack s' d = Some (relocated "DEF:" (constraints Sample.bone)) ∧
    (∀ x, x ∈ ostack → has_prefix "DEF:" x = false).
Proof.
  split; [reflexivity|]. split; [reflexivity|].
  destruct (def_constraints_move sample_unique_name_fresh
              sample_default_name_plain
              Sample.arm "ORG-Bone" Sample.bone Params.default eq_refl eq_refl)
    as (s' & d & ostack & Hrun & Hd & Ho & Hds & Habs & _).
  exists s', d, ostack. repeat split; assumption.
Defined.

Lemma plain_constraints_stay_witness :
  Sample.arm !! "ORG-Bone" = Some Sample.bone ∧
  ∃ s' ostack,
    through_rig Params.default (initial_state Sample.arm "ORG-Bone")
      = Ok (tt, s') ∧
    bone_stack s' "ORG-Bone" = Some ostack ∧
    mkConstraint "Track" "DAMPED_TRACK" (Some "target") ∈ ostack.
Proof.
  split; [reflexivity|].
  destruct (plain_constraints_stay sample_unique_name_fresh
              sample_default_name_plain
              Sample.arm "ORG-Bone" Sample.bone Params.default eq_refl)
    as (s' & ostack & Hrun & Ho & Hin & _).
  exists s', ostack. split; [exact Hrun|]. split; [exact Ho|].
  apply (Hin (mkConstraint "Track" "DAMPED_TRACK" (Some "ORG-target")));
    [|reflexivity].
  apply list_elem_of_further, list_elem_of_here.
Defined.

Lemma widget_only_for_control_witness :
  Sample.arm !! "ORG-Bone" = Some Sample.bone ∧
  ∃ s4 s5 c,
    through_rig Params.default (initial_state Sample.arm "ORG-Bone")
      = Ok (tt, s4) ∧
    generate Params.default (initial_state Sample.arm "ORG-Bone")
      = Ok (tt, s5) ∧
    ctrl (bones s4) = Some c ∧
    trace s5 = trace s4 ++ [CreateRegisteredWidget c "circle"].
Proof.
  split; [reflexivity|].
  destruct (widget_only_for_control sample_unique_name_fresh
              Sample.arm "ORG-Bone" Sample.bone Params.default eq_refl)
    as (s4 & Hrig & _ & _ & Hw).
  destruct (Hw eq_refl) as (c & Hc & _ & Hreg).
  destruct (Hreg eq_refl) as [Hyes _].
  destruct (Hyes eq_refl) as (s5 & Hgen & Htrace).
  exists s4, s5, c. repeat split; assumption.
Defined.

(** * The parameter interface *)

(** X13.  The hint on [CTRL:] constraints is shown exactly when
    [relink_constraints] and [make_control] are both set, and the hint on
    [DEF:] constraints exactly when [relink_constraints] and [make_deform]
    are both set. *)
Theorem hints_shown_iff (p : Params.t) (relink_constraints : bool) :
  UI.shown (parameters_ui 0 p relink_constraints UI.fresh) ctrl_hint =
    relink_constraints && Params.make_control p ∧
  UI.shown (parameters_ui 0 p relink_constraints UI.fresh) def_hint =
    relink_constraints && Params.make_deform p.
Proof.
  destruct p as [mc mw wt md].
  destruct relink_constraints, mc, mw, md; split; vm_compute; reflexivity.
Qed.

(** X14.  The interface never shows an empty column: the column for the
    hints is only made when at least one hint goes in it. *)
Theorem no_empty_column (p : Params.t) (relink_constraints : bool) :
  Forall (λ l, UI.kind l = UI.Column → UI.items l ≠ [])
    (parameters_ui 0 p relink_constraints UI.fresh).
Proof.
  destruct p as [mc mw wt md].
  destruct relink_constraints, mc, mw, md; cbn;
    repeat constructor; cbn; congruence.
Qed.

(** X15.  What can be operated in the interface: the checkboxes of
    [make_control] and [make_deform] always, the checkbox of [make_widget]
    only when [make_control] is set, and the selector of the widget type
    only when [make_control] and [make_widget] are both set. *)
Theorem operable_parameters (p : Params.t) (relink_constraints : bool) :
  let st := parameters_ui 0 p relink_constraints UI.fresh in
  UI.operable st (editor_of "make_control") = true ∧
  UI.operable st (editor_of "make_deform") = true ∧
  UI.operable st (editor_of "make_widget") = Params.make_control p ∧
  UI.operable st (editor_of "super_copy_widget_type") =
    Params.make_control p && Params.make_widget p.
Proof.
  destruct p as [mc mw wt md].
  destruct relink_constraints, mc, mw, md; repeat split; vm_compute; reflexivity.
Qed.

(** X16.  Every attribute of [params] the interface edits is declared by
    [add_parameters], whatever the relink mixin declares besides, and no two
    of the declarations of the rig assign the same attribute. *)
Theorem interface_edits_declared_parameters
    (p : Params.t) (relink_constraints : bool) (mixin_decls : list PropertyDecl) :
  Forall (λ l, Forall (λ i, ∀ attr, edited_attr i = Some attr →
                            attr ∈ decl_attr <$> add_parameters mixin_decls)
                 (UI.items l))
    (parameters_ui 0 p relink_constraints UI.fresh) ∧
  NoDup (decl_attr <$> add_parameters []).
Proof.
  split.
  - destruct p as [mc mw wt md]. unfold add_parameters.
    rewrite fmap_app.
    destruct relink_constraints, mc, mw, md; cbn;
      repeat first [apply Forall_nil_2 | apply Forall_cons_2];
      cbn; intros attr [= <-];
      repeat first [apply list_elem_of_here | apply list_elem_of_further].
  - cbn. repeat (apply NoDup_cons_2; [rewrite ?elem_of_cons, ?elem_of_nil; intuition congruence|]). apply NoDup_nil_2.
Qed.

(** * The sample metarig *)

Section SampleProofs.

Context (new_name : gmap string Metarig.Bone → string → string)
        (blank : Metarig.Bone).

Ltac unfold_sample :=
  unfold create_sample, edit_bones_new, Metarig.mode_set,
    Metarig.update_edit_bone, Metarig.update_pose_bone,
    Metarig.update_edit_bones, Metarig.set_active_bone, Metarig.get_object,
    dict_item, mbind, Result_bind, mret, Result_ret.


(** With no active object in the context [create_sample] stops at its first
    line. *)
Lemma create_sample_needs_active_object (obj : string) (ctx : Metarig.Context) :
  Metarig.active_object ctx = None →
  create_sample new_name blank obj ctx = Raise (RuntimeError "object.mode_set").
Proof. intros Hact. unfold_sample. by rewrite Hact. Qed.


(** The armature never gives a new bone a name that is taken. *)
Hypothesis new_name_fresh :
  ∀ (m : gmap string Metarig.Bone) (n : string), m !! new_name m n = None.


End SampleProofs.

(** * The further theorems at the samples *)

(** The sample catalog holds the default widget type. *)
Lemma sample_widget_available : widget_available Params.default.
Proof. intros _ _. reflexivity. Qed.

(** A widget type the sample catalog does not hold ends the run in the
    widget stage. *)
Example sample_run_unknown_widget :
  generate (Params.mk true true "nonexistent" true)
    (initial_state Sample.arm "ORG-Bone") = Raise (MetarigError "nonexistent").
Proof. vm_compute. reflexivity. Qed.

Lemma generate_bones_keeps_existing_witness :
  ∃ s',
    generate_bones (mkRig Params.default "Bone" true true true)
      (initial_state Sample.arm "ORG-Bone") = Ok (tt, s') ∧
    org (bones s') = "ORG-Bone" ∧
    armature s' !! "ORG-spine" = Some Sample.spine.
Proof.
  destruct (generate_bones (mkRig Params.default "Bone" true true true)
              (initial_state Sample.arm "ORG-Bone"))
    as [[[] s']|e] eqn:Hrun; [|vm_compute in Hrun; discriminate].
  exists s'. split; [reflexivity|].
  destruct (generate_bones_keeps_existing sample_unique_name_fresh _ _ _ Hrun)
    as [Horg Hkeep].
  split; [exact Horg|]. apply Hkeep. reflexivity.
Defined.

Lemma run_touches_only_its_bones_witness :
  Sample.arm !! "ORG-Bone" = Some Sample.bone ∧
  widget_available Params.default ∧
  ∃ s',
    generate Params.default (initial_state Sample.arm "ORG-Bone") = Ok (tt, s') ∧
    org (bones s') = "ORG-Bone" ∧
    created Sample.arm s' = derived (bones s') ∧
    ∀ b, b ≠ "ORG-Bone" → b ∈ dom Sample.arm →
         armature s' !! b = Sample.arm !! b.
Proof.
  split; [reflexivity|]. split; [exact sample_widget_available|].
  apply (run_touches_only_its_bones sample_unique_name_fresh
           Sample.arm "ORG-Bone" Sample.bone Params.default);
    [reflexivity | exact sample_widget_available].
Defined.

Lemma control_copies_org_properties_witness :
  Sample.arm !! "ORG-Bone" = Some Sample.bone ∧
  widget_available Params.default ∧
  ∃ s',
    generate Params.default (initial_state Sample.arm "ORG-Bone") = Ok (tt, s') ∧
    properties <$> armature s' !! "ORG-Bone" = Some "QUATERNION" ∧
    (∀ c, ctrl (bones s') = Some c →
       properties <$> armature s' !! c = Some "QUATERNION") ∧
    (∀ d, deform (bones s') = Some d →
       properties <$> armature s' !! d = Some "XYZ").
Proof.
  split; [reflexivity|]. split; [exact sample_widget_available|].
  apply (control_copies_org_properties sample_unique_name_fresh
           Sample.arm "ORG-Bone" Sample.bone Params.default);
    [reflexivity | exact sample_widget_available].
Defined.

Lemma hierarchy_after_run_witness :
  Sample.arm !! "ORG-loose" = Some Sample.loose ∧
  widget_available Params.default ∧
  ∃ s',
    generate Params.default (initial_state Sample.arm "ORG-loose") = Ok (tt, s') ∧
    bone_parent s' "ORG-loose" = Some None ∧
    (∀ c, ctrl (bones s') = Some c →
       bone_parent s' c = Some (Some "ORG-spine")) ∧
    (∀ d, deform (bones s') = Some d →
       bone_parent s' d = Some (Some "ORG-loose") ∧
       use_connect <$> armature s' !! d = Some false).
Proof.
  split; [reflexivity|]. split; [exact sample_widget_available|].
  apply (hierarchy_after_run sample_unique_name_fresh
           Sample.arm "ORG-loose" Sample.loose Params.default);
    [reflexivity | exact sample_widget_available].
Defined.

Lemma run_without_derived_bones_witness :
  Sample.arm !! "ORG-Bone" = Some Sample.bone ∧
  ∃ s',
    generate (Params.mk false true "circle" false)
      (initial_state Sample.arm "ORG-Bone") = Ok (tt, s') ∧
    bones s' = mkBoneSet "ORG-Bone" None None ∧
    trace s' = [RelinkBoneParent "ORG-Bone"; RelinkBoneConstraints "ORG-Bone"].
Proof.
  split; [reflexivity|].
  destruct (run_without_derived_bones Sample.arm "ORG-Bone" Sample.bone
              (Params.mk false true "circle" false) eq_refl eq_refl eq_refl)
    as (s' & Hrun & Hbones & Htrace & _).
  exists s'. repeat split; assumption.
Defined.

Lemma calls_of_a_run_witness :
  Sample.arm !! "ORG-Bone" = Some Sample.bone ∧
  widget_available Params.default ∧
  ∃ s',
    generate Params.default (initial_state Sample.arm "ORG-Bone") = Ok (tt, s') ∧
    is_Some (ctrl (bones s')) ∧ is_Some (deform (bones s')).
Proof.
  split; [reflexivity|]. split; [exact sample_widget_available|].
  destruct (calls_of_a_run sample_unique_name_fresh
              Sample.arm "ORG-Bone" Sample.bone Params.default eq_refl
              sample_widget_available)
    as (s' & Hrun & Hc & Hd & _).
  exists s'. split; [exact Hrun|]. split; [apply Hc|apply Hd]; reflexivity.
Defined.

Lemma constraints_are_conserved_witness :
  Sample.arm !! "ORG-Bone" = Some Sample.bone ∧
  ∃ s' ostack,
    through_rig Params.default (initial_state Sample.arm "ORG-Bone")
      = Ok (tt, s') ∧
    bone_stack s' "ORG-Bone" = Some ostack ∧
    payload <$> (ostack ++ role_stack s' (ctrl (bones s')) ++
                 role_stack s' (deform (bones s')))
    ≡ₚ payload <$> (from_option (λ c, [copy_transforms_to c]) []
                      (ctrl (bones s')) ++
                    (relink_constraint <$> constraints Sample.bone)).
Proof.
  split; [reflexivity|].
  apply (constraints_are_conserved sample_unique_name_fresh
           sample_default_name_plain
           Sample.arm "ORG-Bone" Sample.bone Params.default).
  reflexivity.
Defined.

Lemma prefixed_constraints_stay_without_their_bone_witness :
  Sample.arm !! "ORG-Bone" = Some Sample.bone ∧
  ∃ s' ostack,
    through_rig (Params.mk false true "circle" true)
      (initial_state Sample.arm "ORG-Bone") = Ok (tt, s') ∧
    bone_stack s' "ORG-Bone" = Some ostack ∧
    mkConstraint "CTRL:Limit" "LIMIT_ROTATION" None ∈ ostack.
Proof.
  split; [reflexivity|].
  destruct (prefixed_constraints_stay_without_their_bone
              sample_unique_name_fresh sample_default_name_plain
              Sample.arm "ORG-Bone" Sample.bone
              (Params.mk false true "circle" true) eq_refl)
    as (s' & ostack & Hrun & Ho & Hctrl & _).
  exists s', ostack. split; [exact Hrun|]. split; [exact Ho|].
  apply (Hctrl eq_refl (mkConstraint "CTRL:Limit" "LIMIT_ROTATION" None));
    [apply list_elem_of_here | reflexivity].
Defined.

Lemma inoperable_parameters_are_ignored_witness :
  UI.operable (parameters_ui 0 (Params.mk false true "circle" true) true UI.fresh)
    (editor_of "make_widget") = false ∧
  agree_except "make_widget" (Params.mk false true "circle" true)
    (Params.mk false false "circle" true) ∧
  generate (Params.mk false true "circle" true)
    (initial_state Sample.arm "ORG-Bone") =
  generate (Params.mk false false "circle" true)
    (initial_state Sample.arm "ORG-Bone").
Proof.
  assert (Hagree : agree_except "make_widget" (Params.mk false true "circle" true)
                     (Params.mk false false "circle" true)).
  { unfold agree_except. simpl. repeat split; first [by left | by right]. }
  split; [vm_compute; reflexivity|]. split; [exact Hagree|].
  apply (inoperable_parameters_are_ignored _ _ true "make_widget");
    [vm_compute; reflexivity | exact Hagree].
Defined.


Example sample_metarig_names :
  fst <$> SampleMetarig.result_of
    (create_sample SampleMetarig.new_name SampleMetarig.blank "metarig"
       SampleMetarig.ctx)
  = Some [("Bone", "Bone0")].
Proof. vm_compute. reflexivity. Qed.

(** The same call with no active object in the scene. *)
Example sample_metarig_inactive :
  create_sample SampleMetarig.new_name SampleMetarig.blank "metarig"
    (Metarig.mkContext (Metarig.objects SampleMetarig.ctx) None)
  = Raise (RuntimeError "object.mode_set").
Proof. vm_compute. reflexivity. Qed.


